(** * Voice memos: the playback and recording state machine of [App]

    A shallow embedding of the React component [App] (src/unnamed/part_001),
    of its types (src/unnamed/part_000: [Memo], [PlaybackMode],
    [PLAYBACK_SPEEDS]) and of the browser objects it drives.

    Conventions of the embedding.

    - A JavaScript number that holds seconds or a rate is a rational [Q];
      a clock reading ([Date.now()], milliseconds) is an integer [Z].
    - A JavaScript string is held by the UTF-8 bytes of its text, the way a
      string literal of this file is read.  The text is well formed (no
      unpaired surrogate); on such text [===], concatenation and
      [includes] give the same answers on UTF-8 bytes as on UTF-16 code
      units, both encodings being self-synchronizing.  [toLowerCase] works
      on the code points ([Unicode] below).
    - The component's [useState] cells and [useRef] cells are the fields of
      one record, [App].
    - A handler created by a render closes over the values of that render:
      it takes the render [r] and transforms the live state [s].  A state
      variable named in the source is read from [r]; a [set...] call, a
      functional update and a [ref.current] act on [s].  A click handler
      belongs to the current render, so it is applied as [h s s].  Three
      closures outlive their render, and what they captured is explicit:
      the call of [startRecording] suspended at its [await], the recorder's
      [onstop] made when it resumes (both keep [memos] and [recordingTime]
      of the render in which the start button was clicked) and the audio
      element's [ended] listener (the effect that registers it depends on
      [memos], [activeMemoId] and [playbackMode] only, so its [isPlaying]
      is the one of the render that registered it).
    - The audio element queues its [play], [pause] and [timeupdate] events;
      they reach the listeners after the running handler has returned.
    - What the environment decides (the clock, the answer to the permission
      prompt, the object URL, whether playback starts) is an argument of the
      event. *)

From Stdlib Require Import List String Ascii Bool Arith ZArith QArith Qminmax.
From Stdlib Require Import Lia DecimalString DecimalZ DecimalPos Qround.
Import ListNotations.

Open Scope string_scope.
Open Scope Q_scope.

Set Implicit Arguments.

(** ** Numbers printed the JavaScript way *)

(** [n.toString()] for an integer: decimal digits, a minus sign when
    negative. *)
Definition toString (z : Z) : string := NilZero.string_of_int (Z.to_int z).

(** ** Types (src/unnamed/part_000) *)

(** A [Blob]: its bytes. *)
Definition Blob := string.

Definition blob_size (b : Blob) : nat := String.length b.

(** [new Blob(chunks)]: the chunks one after the other. *)
Definition new_Blob (chunks : list Blob) : Blob := String.concat "" chunks.

Module Memo.
Record t := mk {
  id : string;
  title : string;
  url : string;
  duration : Q;
  createdAt : Z;
  blob : Blob
}.

Definition with_title (newTitle : string) (m : t) : t :=
  mk (id m) newTitle (url m) (duration m) (createdAt m) (blob m).
End Memo.

Inductive PlaybackMode := SEQUENTIAL | LOOP_ONE | LOOP_ALL.

Definition PlaybackMode_eqb (a b : PlaybackMode) : bool :=
  match a, b with
  | SEQUENTIAL, SEQUENTIAL | LOOP_ONE, LOOP_ONE | LOOP_ALL, LOOP_ALL => true
  | _, _ => false
  end.

Definition PLAYBACK_SPEEDS : list Q := [5 # 10; 1; 125 # 100; 15 # 10; 2].

(** ** The browser's media element

    [audioRef.current] is an [HTMLAudioElement].  The record keeps the
    attributes the program reads or writes, [ended] (the playback position
    is the end of the resource), [readyState] ([HAVE_NOTHING], or
    [HAVE_METADATA] for every state from there on) and [pending], the
    events the element has queued and not yet fired.  The methods follow
    the media element algorithms of the HTML standard as far as they touch
    these fields:

    - the load algorithm (run by [load()] and by every assignment to [src])
      first discards the queued events; it pauses the element without a
      [pause] event, puts the playback position back to 0 (queueing
      [timeupdate] when that moves the position of a loaded resource),
      leaves the element at [HAVE_NOTHING], clears the error and sets
      [playbackRate] to [defaultPlaybackRate], which the program never
      changes from 1;
    - [pause()] sets [paused] and, when the element was not paused, queues
      [timeupdate] and [pause];
    - [play()] is rejected at once, with no change, when playback is not
      allowed or the element holds an error; otherwise, when playback has
      ended, it seeks to the start; it clears [paused] and, when the
      element was paused, queues [play], before the resource is known to
      be playable; the returned promise is rejected later when the
      resource cannot be loaded or decoded;
    - an assignment to [currentTime] at [HAVE_NOTHING] only stores the
      value (the default playback start position, which [currentTime]
      reads back and the element seeks to when the metadata arrive);
      otherwise it is a seek, and a seek queues [timeupdate].  The value
      is recorded as given: the bounds the element itself puts on a seek
      are not modelled, and a seek leaves the element at the end of its
      resource only when it was there and the value is not before it;
    - at the natural end of the resource the element sets [paused] and
      fires [timeupdate], [pause] and then [ended], in one task.

    (HTML standard, media elements: "media element load algorithm",
    "internal pause steps", "internal play steps", "seek", and the steps
    for the end of playback.)  The queued events are fired, in order, once
    the running handler has returned ([flush] below).  The [timeupdate] of
    a playing element, [loadedmetadata] and [ended] are events of their
    own ([Event] below). *)
Module Audio.
Inductive Event := play_event | pause_event | timeupdate_event.

Inductive ReadyState := HAVE_NOTHING | HAVE_METADATA.

Record t := mk {
  src : string;
  paused : bool;
  currentTime : Q;
  playbackRate : Q;
  error : bool;
  ended : bool;
  readyState : ReadyState;
  pending : list Event
}.

(** What becomes of one call of [play()]. *)
Inductive PlayOutcome :=
| Plays        (* the promise resolves *)
| FailsToLoad  (* the promise is rejected after [play] was queued *)
| NotAllowed.  (* the promise is rejected at once *)

Definition defaultPlaybackRate : Q := 1.

(** [new Audio()] *)
Definition create : t := mk "" true 0 defaultPlaybackRate false false HAVE_NOTHING [].

Definition has_metadata (a : t) : bool :=
  match readyState a with HAVE_NOTHING => false | HAVE_METADATA => true end.

Definition load (a : t) : t :=
  mk (src a) true 0 defaultPlaybackRate false false HAVE_NOTHING
     (if has_metadata a && negb (Qeq_bool (currentTime a) 0)
      then [timeupdate_event] else []).

Definition set_src (u : string) (a : t) : t :=
  load (mk u (paused a) (currentTime a) (playbackRate a) (error a) (ended a)
           (readyState a) (pending a)).

(** The seek algorithm, to position [v]. *)
Definition seek (v : Q) (a : t) : t :=
  mk (src a) (paused a) v (playbackRate a) (error a)
     (ended a && Qle_bool (currentTime a) v) (readyState a)
     (pending a ++ [timeupdate_event]).

Definition set_currentTime (v : Q) (a : t) : t :=
  match readyState a with
  | HAVE_NOTHING =>
      mk (src a) (paused a) v (playbackRate a) (error a) (ended a)
         (readyState a) (pending a)
  | HAVE_METADATA => seek v a
  end.

Definition set_playbackRate (v : Q) (a : t) : t :=
  mk (src a) (paused a) (currentTime a) v (error a) (ended a) (readyState a)
     (pending a).

Definition pause (a : t) : t :=
  mk (src a) true (currentTime a) (playbackRate a) (error a) (ended a)
     (readyState a)
     (pending a ++ if paused a then [] else [timeupdate_event; pause_event]).

(** The internal play steps, for a call that is not rejected at once;
    [fails] tells whether the resource then turns out not to be playable. *)
Definition start (fails : bool) (a : t) : t :=
  mk (src a) false (if ended a then 0 else currentTime a) (playbackRate a)
     fails false (readyState a)
     (pending a ++ (if paused a then [play_event] else [])
                ++ (if ended a then [timeupdate_event] else [])).

Definition play (o : PlayOutcome) (a : t) : t :=
  if error a then a
  else
    match o with
    | NotAllowed => a
    | Plays => start false a
    | FailsToLoad => start true a
    end.

(** The playing element has moved on to [position]. *)
Definition advance (position : Q) (a : t) : t :=
  mk (src a) (paused a) position (playbackRate a) (error a) false
     (readyState a) (pending a).

(** The element has the metadata of its resource; a position assigned
    before is now sought. *)
Definition metadata_loaded (a : t) : t :=
  match readyState a with
  | HAVE_NOTHING =>
      mk (src a) (paused a) (currentTime a) (playbackRate a) (error a)
         (ended a) HAVE_METADATA
         (pending a ++ if Qeq_bool (currentTime a) 0 then []
                       else [timeupdate_event])
  | HAVE_METADATA => a
  end.

(** The element reaches the end of its resource. *)
Definition reach_end (a : t) : t :=
  mk (src a) true (currentTime a) (playbackRate a) (error a) true
     HAVE_METADATA (pending a).

Definition clear_pending (a : t) : t :=
  mk (src a) (paused a) (currentTime a) (playbackRate a) (error a) (ended a)
     (readyState a) [].
End Audio.

(** ** The recorder

    A [MediaRecorder] made by [startRecording].  Its [onstop] handler is a
    closure of the render in which the start button was clicked:
    [onstop_memos] and [onstop_recordingTime] are the [memos] and the
    [recordingTime] of that render.  [stream] names the [MediaStream] it
    records. *)
Module MediaRecorder.
Record t := mk {
  stream : nat;
  onstop_memos : list Memo.t;
  onstop_recordingTime : Q
}.

Definition eqb_stream (a b : t) : bool := Nat.eqb (stream a) (stream b).
End MediaRecorder.

(** A call of [startRecording] suspended at [await getUserMedia]: what it
    will read, once resumed, of the render it was called in. *)
Module Suspended.
Record t := mk {
  memos : list Memo.t;
  recordingTime : Q
}.
End Suspended.

(** ** The component's state

    The [useState] cells, the [useRef] cells, and what the browser holds for
    the component: [awaiting], the calls of [startRecording] whose
    [getUserMedia] promise has not settled yet, [recorders], the recorders
    in state "recording" (each keeps its stream's tracks live; a track ends
    only when [onstop] stops it), [intervals], the running [setInterval]
    timers with the [startTime] their callback closes over, and
    [nextHandle], the next timer or stream handle the browser gives out. *)
Record App := mkApp {
  memos : list Memo.t;
  activeMemoId : option string;
  isRecording : bool;
  recordingTime : Q;
  isPlaying : bool;
  playbackTime : Q;
  duration : Q;
  playbackRate : Q;
  playbackMode : PlaybackMode;
  searchQuery : string;
  mediaRecorderRef : option MediaRecorder.t;
  audioChunksRef : list Blob;
  recordingTimerRef : option nat;
  audioRef : Audio.t;
  awaiting : list Suspended.t;
  recorders : list MediaRecorder.t;
  intervals : list (nat * Z);
  nextHandle : nat
}.

Definition setMemos (v : list Memo.t) (s : App) : App :=
  mkApp v (activeMemoId s) (isRecording s) (recordingTime s) (isPlaying s) (playbackTime s) (duration s) (playbackRate s) (playbackMode s) (searchQuery s) (mediaRecorderRef s) (audioChunksRef s) (recordingTimerRef s) (audioRef s) (awaiting s) (recorders s) (intervals s) (nextHandle s).
Definition setActiveMemoId (v : option string) (s : App) : App :=
  mkApp (memos s) v (isRecording s) (recordingTime s) (isPlaying s) (playbackTime s) (duration s) (playbackRate s) (playbackMode s) (searchQuery s) (mediaRecorderRef s) (audioChunksRef s) (recordingTimerRef s) (audioRef s) (awaiting s) (recorders s) (intervals s) (nextHandle s).
Definition setIsRecording (v : bool) (s : App) : App :=
  mkApp (memos s) (activeMemoId s) v (recordingTime s) (isPlaying s) (playbackTime s) (duration s) (playbackRate s) (playbackMode s) (searchQuery s) (mediaRecorderRef s) (audioChunksRef s) (recordingTimerRef s) (audioRef s) (awaiting s) (recorders s) (intervals s) (nextHandle s).
Definition setRecordingTime (v : Q) (s : App) : App :=
  mkApp (memos s) (activeMemoId s) (isRecording s) v (isPlaying s) (playbackTime s) (duration s) (playbackRate s) (playbackMode s) (searchQuery s) (mediaRecorderRef s) (audioChunksRef s) (recordingTimerRef s) (audioRef s) (awaiting s) (recorders s) (intervals s) (nextHandle s).
Definition setIsPlaying (v : bool) (s : App) : App :=
  mkApp (memos s) (activeMemoId s) (isRecording s) (recordingTime s) v (playbackTime s) (duration s) (playbackRate s) (playbackMode s) (searchQuery s) (mediaRecorderRef s) (audioChunksRef s) (recordingTimerRef s) (audioRef s) (awaiting s) (recorders s) (intervals s) (nextHandle s).
Definition setPlaybackTime (v : Q) (s : App) : App :=
  mkApp (memos s) (activeMemoId s) (isRecording s) (recordingTime s) (isPlaying s) v (duration s) (playbackRate s) (playbackMode s) (searchQuery s) (mediaRecorderRef s) (audioChunksRef s) (recordingTimerRef s) (audioRef s) (awaiting s) (recorders s) (intervals s) (nextHandle s).
Definition setDuration (v : Q) (s : App) : App :=
  mkApp (memos s) (activeMemoId s) (isRecording s) (recordingTime s) (isPlaying s) (playbackTime s) v (playbackRate s) (playbackMode s) (searchQuery s) (mediaRecorderRef s) (audioChunksRef s) (recordingTimerRef s) (audioRef s) (awaiting s) (recorders s) (intervals s) (nextHandle s).
Definition setPlaybackRate (v : Q) (s : App) : App :=
  mkApp (memos s) (activeMemoId s) (isRecording s) (recordingTime s) (isPlaying s) (playbackTime s) (duration s) v (playbackMode s) (searchQuery s) (mediaRecorderRef s) (audioChunksRef s) (recordingTimerRef s) (audioRef s) (awaiting s) (recorders s) (intervals s) (nextHandle s).
Definition setPlaybackMode (v : PlaybackMode) (s : App) : App :=
  mkApp (memos s) (activeMemoId s) (isRecording s) (recordingTime s) (isPlaying s) (playbackTime s) (duration s) (playbackRate s) v (searchQuery s) (mediaRecorderRef s) (audioChunksRef s) (recordingTimerRef s) (audioRef s) (awaiting s) (recorders s) (intervals s) (nextHandle s).
Definition setSearchQuery (v : string) (s : App) : App :=
  mkApp (memos s) (activeMemoId s) (isRecording s) (recordingTime s) (isPlaying s) (playbackTime s) (duration s) (playbackRate s) (playbackMode s) v (mediaRecorderRef s) (audioChunksRef s) (recordingTimerRef s) (audioRef s) (awaiting s) (recorders s) (intervals s) (nextHandle s).
Definition set_mediaRecorderRef (v : option MediaRecorder.t) (s : App) : App :=
  mkApp (memos s) (activeMemoId s) (isRecording s) (recordingTime s) (isPlaying s) (playbackTime s) (duration s) (playbackRate s) (playbackMode s) (searchQuery s) v (audioChunksRef s) (recordingTimerRef s) (audioRef s) (awaiting s) (recorders s) (intervals s) (nextHandle s).
Definition set_audioChunksRef (v : list Blob) (s : App) : App :=
  mkApp (memos s) (activeMemoId s) (isRecording s) (recordingTime s) (isPlaying s) (playbackTime s) (duration s) (playbackRate s) (playbackMode s) (searchQuery s) (mediaRecorderRef s) v (recordingTimerRef s) (audioRef s) (awaiting s) (recorders s) (intervals s) (nextHandle s).
Definition set_recordingTimerRef (v : option nat) (s : App) : App :=
  mkApp (memos s) (activeMemoId s) (isRecording s) (recordingTime s) (isPlaying s) (playbackTime s) (duration s) (playbackRate s) (playbackMode s) (searchQuery s) (mediaRecorderRef s) (audioChunksRef s) v (audioRef s) (awaiting s) (recorders s) (intervals s) (nextHandle s).
Definition set_audioRef (v : Audio.t) (s : App) : App :=
  mkApp (memos s) (activeMemoId s) (isRecording s) (recordingTime s) (isPlaying s) (playbackTime s) (duration s) (playbackRate s) (playbackMode s) (searchQuery s) (mediaRecorderRef s) (audioChunksRef s) (recordingTimerRef s) v (awaiting s) (recorders s) (intervals s) (nextHandle s).
Definition set_awaiting (v : list Suspended.t) (s : App) : App :=
  mkApp (memos s) (activeMemoId s) (isRecording s) (recordingTime s) (isPlaying s) (playbackTime s) (duration s) (playbackRate s) (playbackMode s) (searchQuery s) (mediaRecorderRef s) (audioChunksRef s) (recordingTimerRef s) (audioRef s) v (recorders s) (intervals s) (nextHandle s).
Definition set_recorders (v : list MediaRecorder.t) (s : App) : App :=
  mkApp (memos s) (activeMemoId s) (isRecording s) (recordingTime s) (isPlaying s) (playbackTime s) (duration s) (playbackRate s) (playbackMode s) (searchQuery s) (mediaRecorderRef s) (audioChunksRef s) (recordingTimerRef s) (audioRef s) (awaiting s) v (intervals s) (nextHandle s).
Definition set_intervals (v : list (nat * Z)) (s : App) : App :=
  mkApp (memos s) (activeMemoId s) (isRecording s) (recordingTime s) (isPlaying s) (playbackTime s) (duration s) (playbackRate s) (playbackMode s) (searchQuery s) (mediaRecorderRef s) (audioChunksRef s) (recordingTimerRef s) (audioRef s) (awaiting s) (recorders s) v (nextHandle s).
Definition set_nextHandle (v : nat) (s : App) : App :=
  mkApp (memos s) (activeMemoId s) (isRecording s) (recordingTime s) (isPlaying s) (playbackTime s) (duration s) (playbackRate s) (playbackMode s) (searchQuery s) (mediaRecorderRef s) (audioChunksRef s) (recordingTimerRef s) (audioRef s) (awaiting s) (recorders s) (intervals s) v.

(** The first render: every [useState] and [useRef] at its initial value,
    [playbackMode] at [LOOP_ALL]. *)
Definition initial : App :=
  mkApp [] None false 0 false 0 0 1 LOOP_ALL "" None [] None Audio.create
        [] [] [] 1%nat.

(** ** JavaScript helpers *)

(** [m.id === activeMemoId], where [activeMemoId] is a string or [null]. *)
Definition id_is (active : option string) (i : string) : bool :=
  match active with
  | Some a => String.eqb i a
  | None => false
  end.

(** [Array.prototype.findIndex]: the first index whose element satisfies [p],
    -1 when there is none. *)
Fixpoint findIndex {A} (p : A -> bool) (l : list A) : Z :=
  match l with
  | [] => -1
  | x :: l' =>
      if p x then 0%Z
      else let i := findIndex p l' in
           if (i =? -1)%Z then (-1)%Z else (i + 1)%Z
  end.

(** [Array.prototype.indexOf] under an equality test. *)
Definition indexOf {A} (eqb : A -> A -> bool) (l : list A) (x : A) : Z :=
  findIndex (fun y => eqb y x) l.

(** [l[i]] for an index in range. *)
Definition at_index {A} (l : list A) (i : Z) : option A :=
  if (i <? 0)%Z then None else nth_error l (Z.to_nat i).

Definition length_Z {A} (l : list A) : Z := Z.of_nat (List.length l).

(** ** Listeners of the audio element (lines 37-59) *)

Definition updateTime (s : App) : App :=
  setPlaybackTime (Audio.currentTime (audioRef s)) s.

(** [setDuration(audio.duration || 0)]; [audio_duration] is [None] when the
    element reports [NaN]. *)
Definition updateDuration (audio_duration : option Q) (s : App) : App :=
  setDuration (match audio_duration with Some d => d | None => 0 end) s.

Definition onPlay (s : App) : App := setIsPlaying true s.
Definition onPause (s : App) : App := setIsPlaying false s.

Definition listener (e : Audio.Event) : App -> App :=
  match e with
  | Audio.play_event => onPlay
  | Audio.pause_event => onPause
  | Audio.timeupdate_event => updateTime
  end.

Definition dispatch (evs : list Audio.Event) (s : App) : App :=
  fold_left (fun s e => listener e s) evs s.

(** A method call or an attribute assignment on [audioRef.current]. *)
Definition audio_set (f : Audio.t -> Audio.t) (s : App) : App :=
  set_audioRef (f (audioRef s)) s.

(** The events the element has queued are fired. *)
Definition flush (s : App) : App :=
  dispatch (Audio.pending (audioRef s))
           (set_audioRef (Audio.clear_pending (audioRef s)) s).

(** The effect of lines 62-66, run after a render in which [playbackRate]
    changed (and after the first render). *)
Definition playbackRate_effect (s : App) : App :=
  audio_set (Audio.set_playbackRate (playbackRate s)) s.

(** ** Playback (lines 68-117)

    Each handler takes the render [r] it closes over and transforms the live
    state [s]: a state variable named in the source body is read from [r], a
    [set...] call and a [ref.current] act on [s]. *)

Definition playMemo (r : App) (o : Audio.PlayOutcome) (memo : Memo.t) (s : App) : App :=
  if id_is (activeMemoId r) (Memo.id memo) then
    if isPlaying r then audio_set Audio.pause s
    else audio_set (Audio.play o) s
  else
    let s := setActiveMemoId (Some (Memo.id memo)) s in
    let s := audio_set (Audio.set_src (Memo.url memo)) s in
    let s := audio_set Audio.load s in
    audio_set (Audio.play o) s.

Definition handlePlaybackEnded (r : App) (o : Audio.PlayOutcome) (s : App) : App :=
  if PlaybackMode_eqb (playbackMode r) LOOP_ONE then
    let s := audio_set (Audio.set_currentTime 0) s in
    audio_set (Audio.play o) s
  else
    let currentIndex :=
      findIndex (fun m => id_is (activeMemoId r) (Memo.id m)) (memos r) in
    if (currentIndex =? -1)%Z then s
    else if PlaybackMode_eqb (playbackMode r) SEQUENTIAL then
      if (currentIndex <? length_Z (memos r) - 1)%Z then
        match at_index (memos r) (currentIndex + 1) with
        | Some m => playMemo r o m s
        | None => s
        end
      else setIsPlaying false s
    else if PlaybackMode_eqb (playbackMode r) LOOP_ALL then
      (* Loop back to start if at end *)
      let nextIndex := ((currentIndex + 1) mod length_Z (memos r))%Z in
      match at_index (memos r) nextIndex with
      | Some m => playMemo r o m s
      | None => s
      end
    else s.

Definition skipTime (r : App) (seconds : Q) (s : App) : App :=
  let newTime := Qmin (Qmax (Audio.currentTime (audioRef s) + seconds) 0) (duration r) in
  audio_set (Audio.set_currentTime newTime) s.

Definition modes : list PlaybackMode := [LOOP_ALL; LOOP_ONE; SEQUENTIAL].

Definition togglePlaybackMode (r : App) (s : App) : App :=
  let nextIndex := ((indexOf PlaybackMode_eqb modes (playbackMode r) + 1) mod length_Z modes)%Z in
  match at_index modes nextIndex with
  | Some m => setPlaybackMode m s
  | None => s
  end.

Definition cycleSpeed (r : App) (s : App) : App :=
  let idx := indexOf Qeq_bool PLAYBACK_SPEEDS (playbackRate r) in
  match at_index PLAYBACK_SPEEDS ((idx + 1) mod length_Z PLAYBACK_SPEEDS)%Z with
  | Some next => setPlaybackRate next s
  | None => s
  end.

(** The scrubber (lines 329-339): a range input with [min = 0] and
    [max = duration || 100]; [onChange] receives the chosen value. *)
Definition scrubber_max (r : App) : Q :=
  if Qeq_bool (duration r) 0 then 100 else duration r.

Definition scrubber_onChange (value : Q) (s : App) : App :=
  let s := audio_set (Audio.set_currentTime value) s in
  setPlaybackTime value s.

(** The round play/pause button (line 372). *)
Definition playPause_onClick (r : App) (o : Audio.PlayOutcome) (s : App) : App :=
  if isPlaying r then audio_set Audio.pause s
  else audio_set (Audio.play o) s.

(** ** Recording (lines 120-181) *)

(** [mediaRecorder.ondataavailable] (lines 132-136). *)
Definition ondataavailable (data : Blob) (s : App) : App :=
  if (0 <? blob_size data)%nat
  then set_audioChunksRef (audioChunksRef s ++ [data]) s
  else s.

(** [mediaRecorder.onstop] (lines 138-159) of the recorder [rec].  [now1] and
    [now2] are the two readings of [Date.now()], [objectURL] is what
    [URL.createObjectURL] returns. *)
Definition newMemo (rec : MediaRecorder.t) (now1 now2 : Z) (objectURL : string)
    (s : App) : Memo.t :=
  Memo.mk (toString now1)
          ("New Recording " ++ toString (length_Z (MediaRecorder.onstop_memos rec) + 1))
          objectURL
          (MediaRecorder.onstop_recordingTime rec)
          now2
          (new_Blob (audioChunksRef s)).

Definition onstop (rec : MediaRecorder.t) (now1 now2 : Z) (objectURL : string)
    (s : App) : App :=
  let m := newMemo rec now1 now2 objectURL s in
  let s := setMemos (m :: memos s) s in
  let s := setRecordingTime 0 s in
  let s := setActiveMemoId (Some (Memo.id m)) s in
  audio_set (Audio.set_src (Memo.url m)) s.

(** The interval callback of lines 164-166, for a timer started at
    [startTime]. *)
Definition interval_callback (startTime now : Z) (s : App) : App :=
  setRecordingTime (inject_Z (now - startTime) / 1000) s.

(** [startRecording] (lines 120-173) is an [async] function.  A click runs
    it up to [await getUserMedia] (lines 121-127): the overlay is asked
    for, playback is paused, and the call is suspended with the render [r]
    it belongs to. *)
Definition startRecording (r : App) (s : App) : App :=
  let s := setIsRecording true s in
  let s := audio_set Audio.pause s in
  let s := setIsPlaying false s in
  set_awaiting (awaiting s ++ [Suspended.mk (memos r) (recordingTime r)]) s.

(** The rest of [startRecording], run when the promise settles: lines
    128-166 when it resolves ([granted]; [now] is the reading of
    [Date.now()] that becomes [startTime]), the [catch] of lines 168-172
    when it is rejected. *)
Definition startRecording_resumes (call : Suspended.t) (granted : bool) (now : Z)
    (s : App) : App :=
  if granted then
    let mediaRecorder :=
      MediaRecorder.mk (nextHandle s) (Suspended.memos call)
                       (Suspended.recordingTime call) in
    let s := set_nextHandle (S (nextHandle s)) s in
    let s := set_mediaRecorderRef (Some mediaRecorder) s in
    let s := set_audioChunksRef [] s in
    let s := set_recorders (mediaRecorder :: recorders s) s in
    let timer := nextHandle s in
    let s := set_nextHandle (S timer) s in
    let s := set_intervals ((timer, now) :: intervals s) s in
    set_recordingTimerRef (Some timer) s
  else
    setIsRecording false s.

Definition clearInterval (timer : nat) (s : App) : App :=
  set_intervals (filter (fun t => negb (Nat.eqb (fst t) timer)) (intervals s)) s.

Definition is_recording (rec : MediaRecorder.t) (s : App) : bool :=
  existsb (MediaRecorder.eqb_stream rec) (recorders s).

(** [MediaRecorder.stop()]: the recorder is inactive from now on; on a
    recorder that is inactive already the call does nothing (MediaStream
    Recording, "stop()", step 2). *)
Definition MediaRecorder_stop (rec : MediaRecorder.t) (s : App) : App :=
  set_recorders
    (filter (fun x => negb (MediaRecorder.eqb_stream rec x)) (recorders s)) s.

(** [stopRecording] (lines 175-181).  A recorder that was recording queues
    its last [dataavailable] and its [stop] event ([recorder_stopped]
    below). *)
Definition stopRecording (r : App) (s : App) : App :=
  match mediaRecorderRef s with
  | Some rec =>
      if isRecording r then
        let s := MediaRecorder_stop rec s in
        let s := setIsRecording false s in
        match recordingTimerRef s with
        | Some timer => clearInterval timer s
        | None => s
        end
      else s
  | None => s
  end.

(** The two events a stopped recorder fires: the data gathered since the last
    chunk, then [stop]. *)
Definition recorder_stopped (rec : MediaRecorder.t) (data : Blob)
    (now1 now2 : Z) (objectURL : string) (s : App) : App :=
  onstop rec now1 now2 objectURL (ondataavailable data s).

(** ** The memo store (lines 183-196, 313-318) *)

Definition deleteMemo (r : App) (id : string) (s : App) : App :=
  let s := setMemos (filter (fun m => negb (String.eqb (Memo.id m) id)) (memos s)) s in
  if id_is (activeMemoId r) id then
    let s := setActiveMemoId None s in
    let s := audio_set Audio.pause s in
    audio_set (Audio.set_src "") s
  else s.

Definition activeMemo (r : App) : option Memo.t :=
  find (fun m => id_is (activeMemoId r) (Memo.id m)) (memos r).

(** The title input of the player panel. *)
Definition title_onChange (r : App) (newTitle : string) (s : App) : App :=
  match activeMemo r with
  | Some active =>
      setMemos (map (fun m => if String.eqb (Memo.id m) (Memo.id active)
                              then Memo.with_title newTitle m else m) (memos s)) s
  | None => s
  end.

(** ** Letter case (Unicode 14.0)

    [String.prototype.toLowerCase] converts the code points of the string
    by the locale-insensitive lowercase mappings of the Unicode Character
    Database: the simple mappings of UnicodeData.txt ([lowercase_ranges]:
    every [step]-th code point from [first] to [last] maps to itself plus
    [delta]) and the two unconditional or context-dependent entries of
    SpecialCasing.txt, U+0130 and the capital sigma U+03A3, which becomes
    the final form U+03C2 in the context [Final_Sigma] and U+03C3
    elsewhere.  The context is read the way ICU and the JavaScript engines
    read it: from the sigma outwards, case-ignorable characters are
    skipped and the first other character decides.  [cased_ranges] and
    [case_ignorable_ranges] are the properties Cased and Case_Ignorable
    of DerivedCoreProperties.txt. *)
Module Unicode.
Local Open Scope Z_scope.
Definition case_ignorable_ranges : list (Z * Z) :=
  [
   (39, 39); (46, 46); (58, 58); (94, 94); (96, 96); (168, 168); (173, 173);
   (175, 175); (180, 180); (183, 184); (688, 879); (884, 885); (890, 890);
   (900, 901); (903, 903); (1155, 1161); (1369, 1369); (1375, 1375);
   (1425, 1469); (1471, 1471); (1473, 1474); (1476, 1477); (1479, 1479);
   (1524, 1524); (1536, 1541); (1552, 1562); (1564, 1564); (1600, 1600);
   (1611, 1631); (1648, 1648); (1750, 1757); (1759, 1768); (1770, 1773);
   (1807, 1807); (1809, 1809); (1840, 1866); (1958, 1968); (2027, 2037);
   (2042, 2042); (2045, 2045); (2070, 2093); (2137, 2139); (2184, 2184);
   (2192, 2193); (2200, 2207); (2249, 2306); (2362, 2362); (2364, 2364);
   (2369, 2376); (2381, 2381); (2385, 2391); (2402, 2403); (2417, 2417);
   (2433, 2433); (2492, 2492); (2497, 2500); (2509, 2509); (2530, 2531);
   (2558, 2558); (2561, 2562); (2620, 2620); (2625, 2626); (2631, 2632);
   (2635, 2637); (2641, 2641); (2672, 2673); (2677, 2677); (2689, 2690);
   (2748, 2748); (2753, 2757); (2759, 2760); (2765, 2765); (2786, 2787);
   (2810, 2815); (2817, 2817); (2876, 2876); (2879, 2879); (2881, 2884);
   (2893, 2893); (2901, 2902); (2914, 2915); (2946, 2946); (3008, 3008);
   (3021, 3021); (3072, 3072); (3076, 3076); (3132, 3132); (3134, 3136);
   (3142, 3144); (3146, 3149); (3157, 3158); (3170, 3171); (3201, 3201);
   (3260, 3260); (3263, 3263); (3270, 3270); (3276, 3277); (3298, 3299);
   (3328, 3329); (3387, 3388); (3393, 3396); (3405, 3405); (3426, 3427);
   (3457, 3457); (3530, 3530); (3538, 3540); (3542, 3542); (3633, 3633);
   (3636, 3642); (3654, 3662); (3761, 3761); (3764, 3772); (3782, 3782);
   (3784, 3789); (3864, 3865); (3893, 3893); (3895, 3895); (3897, 3897);
   (3953, 3966); (3968, 3972); (3974, 3975); (3981, 3991); (3993, 4028);
   (4038, 4038); (4141, 4144); (4146, 4151); (4153, 4154); (4157, 4158);
   (4184, 4185); (4190, 4192); (4209, 4212); (4226, 4226); (4229, 4230);
   (4237, 4237); (4253, 4253); (4348, 4348); (4957, 4959); (5906, 5908);
   (5938, 5939); (5970, 5971); (6002, 6003); (6068, 6069); (6071, 6077);
   (6086, 6086); (6089, 6099); (6103, 6103); (6109, 6109); (6155, 6159);
   (6211, 6211); (6277, 6278); (6313, 6313); (6432, 6434); (6439, 6440);
   (6450, 6450); (6457, 6459); (6679, 6680); (6683, 6683); (6742, 6742);
   (6744, 6750); (6752, 6752); (6754, 6754); (6757, 6764); (6771, 6780);
   (6783, 6783); (6823, 6823); (6832, 6862); (6912, 6915); (6964, 6964);
   (6966, 6970); (6972, 6972); (6978, 6978); (7019, 7027); (7040, 7041);
   (7074, 7077); (7080, 7081); (7083, 7085); (7142, 7142); (7144, 7145);
   (7149, 7149); (7151, 7153); (7212, 7219); (7222, 7223); (7288, 7293);
   (7376, 7378); (7380, 7392); (7394, 7400); (7405, 7405); (7412, 7412);
   (7416, 7417); (7468, 7530); (7544, 7544); (7579, 7679); (8125, 8125);
   (8127, 8129); (8141, 8143); (8157, 8159); (8173, 8175); (8189, 8190);
   (8203, 8207); (8216, 8217); (8228, 8228); (8231, 8231); (8234, 8238);
   (8288, 8292); (8294, 8303); (8305, 8305); (8319, 8319); (8336, 8348);
   (8400, 8432); (11388, 11389); (11503, 11505); (11631, 11631);
   (11647, 11647); (11744, 11775); (11823, 11823); (12293, 12293);
   (12330, 12333); (12337, 12341); (12347, 12347); (12441, 12446);
   (12540, 12542); (40981, 40981); (42232, 42237); (42508, 42508);
   (42607, 42610); (42612, 42621); (42623, 42623); (42652, 42655);
   (42736, 42737); (42752, 42785); (42864, 42864); (42888, 42890);
   (42994, 42996); (43000, 43001); (43010, 43010); (43014, 43014);
   (43019, 43019); (43045, 43046); (43052, 43052); (43204, 43205);
   (43232, 43249); (43263, 43263); (43302, 43309); (43335, 43345);
   (43392, 43394); (43443, 43443); (43446, 43449); (43452, 43453);
   (43471, 43471); (43493, 43494); (43561, 43566); (43569, 43570);
   (43573, 43574); (43587, 43587); (43596, 43596); (43632, 43632);
   (43644, 43644); (43696, 43696); (43698, 43700); (43703, 43704);
   (43710, 43711); (43713, 43713); (43741, 43741); (43756, 43757);
   (43763, 43764); (43766, 43766); (43867, 43871); (43881, 43883);
   (44005, 44005); (44008, 44008); (44013, 44013); (64286, 64286);
   (64434, 64450); (65024, 65039); (65043, 65043); (65056, 65071);
   (65106, 65106); (65109, 65109); (65279, 65279); (65287, 65287);
   (65294, 65294); (65306, 65306); (65342, 65342); (65344, 65344);
   (65392, 65392); (65438, 65439); (65507, 65507); (65529, 65531);
   (66045, 66045); (66272, 66272); (66422, 66426); (67456, 67461);
   (67463, 67504); (67506, 67514); (68097, 68099); (68101, 68102);
   (68108, 68111); (68152, 68154); (68159, 68159); (68325, 68326);
   (68900, 68903); (69291, 69292); (69446, 69456); (69506, 69509);
   (69633, 69633); (69688, 69702); (69744, 69744); (69747, 69748);
   (69759, 69761); (69811, 69814); (69817, 69818); (69821, 69821);
   (69826, 69826); (69837, 69837); (69888, 69890); (69927, 69931);
   (69933, 69940); (70003, 70003); (70016, 70017); (70070, 70078);
   (70089, 70092); (70095, 70095); (70191, 70193); (70196, 70196);
   (70198, 70199); (70206, 70206); (70367, 70367); (70371, 70378);
   (70400, 70401); (70459, 70460); (70464, 70464); (70502, 70508);
   (70512, 70516); (70712, 70719); (70722, 70724); (70726, 70726);
   (70750, 70750); (70835, 70840); (70842, 70842); (70847, 70848);
   (70850, 70851); (71090, 71093); (71100, 71101); (71103, 71104);
   (71132, 71133); (71219, 71226); (71229, 71229); (71231, 71232);
   (71339, 71339); (71341, 71341); (71344, 71349); (71351, 71351);
   (71453, 71455); (71458, 71461); (71463, 71467); (71727, 71735);
   (71737, 71738); (71995, 71996); (71998, 71998); (72003, 72003);
   (72148, 72151); (72154, 72155); (72160, 72160); (72193, 72202);
   (72243, 72248); (72251, 72254); (72263, 72263); (72273, 72278);
   (72281, 72283); (72330, 72342); (72344, 72345); (72752, 72758);
   (72760, 72765); (72767, 72767); (72850, 72871); (72874, 72880);
   (72882, 72883); (72885, 72886); (73009, 73014); (73018, 73018);
   (73020, 73021); (73023, 73029); (73031, 73031); (73104, 73105);
   (73109, 73109); (73111, 73111); (73459, 73460); (78896, 78904);
   (92912, 92916); (92976, 92982); (92992, 92995); (94031, 94031);
   (94095, 94111); (94176, 94177); (94179, 94180); (110576, 110579);
   (110581, 110587); (110589, 110590); (113821, 113822); (113824, 113827);
   (118528, 118573); (118576, 118598); (119143, 119145); (119155, 119170);
   (119173, 119179); (119210, 119213); (119362, 119364); (121344, 121398);
   (121403, 121452); (121461, 121461); (121476, 121476); (121499, 121503);
   (121505, 121519); (122880, 122886); (122888, 122904); (122907, 122913);
   (122915, 122916); (122918, 122922); (123184, 123197); (123566, 123566);
   (123628, 123631); (125136, 125142); (125252, 125259); (127995, 127999);
   (917505, 917505); (917536, 917631); (917760, 917999)
  ].

Definition cased_ranges : list (Z * Z) :=
  [
   (65, 90); (97, 122); (170, 170); (181, 181); (186, 186); (192, 214);
   (216, 246); (248, 442); (444, 447); (452, 659); (661, 696); (704, 705);
   (736, 740); (837, 837); (880, 883); (886, 887); (890, 893); (895, 895);
   (902, 902); (904, 906); (908, 908); (910, 929); (931, 1013); (1015, 1153);
   (1162, 1327); (1329, 1366); (1376, 1416); (4256, 4293); (4295, 4295);
   (4301, 4301); (4304, 4346); (4349, 4351); (5024, 5109); (5112, 5117);
   (7296, 7304); (7312, 7354); (7357, 7359); (7424, 7615); (7680, 7957);
   (7960, 7965); (7968, 8005); (8008, 8013); (8016, 8023); (8025, 8025);
   (8027, 8027); (8029, 8029); (8031, 8061); (8064, 8116); (8118, 8124);
   (8126, 8126); (8130, 8132); (8134, 8140); (8144, 8147); (8150, 8155);
   (8160, 8172); (8178, 8180); (8182, 8188); (8305, 8305); (8319, 8319);
   (8336, 8348); (8450, 8450); (8455, 8455); (8458, 8467); (8469, 8469);
   (8473, 8477); (8484, 8484); (8486, 8486); (8488, 8488); (8490, 8493);
   (8495, 8500); (8505, 8505); (8508, 8511); (8517, 8521); (8526, 8526);
   (8544, 8575); (8579, 8580); (9398, 9449); (11264, 11492); (11499, 11502);
   (11506, 11507); (11520, 11557); (11559, 11559); (11565, 11565);
   (42560, 42605); (42624, 42653); (42786, 42887); (42891, 42894);
   (42896, 42954); (42960, 42961); (42963, 42963); (42965, 42969);
   (42997, 42998); (43000, 43002); (43824, 43866); (43868, 43880);
   (43888, 43967); (64256, 64262); (64275, 64279); (65313, 65338);
   (65345, 65370); (66560, 66639); (66736, 66771); (66776, 66811);
   (66928, 66938); (66940, 66954); (66956, 66962); (66964, 66965);
   (66967, 66977); (66979, 66993); (66995, 67001); (67003, 67004);
   (67456, 67456); (67459, 67461); (67463, 67504); (67506, 67514);
   (68736, 68786); (68800, 68850); (71840, 71903); (93760, 93823);
   (119808, 119892); (119894, 119964); (119966, 119967); (119970, 119970);
   (119973, 119974); (119977, 119980); (119982, 119993); (119995, 119995);
   (119997, 120003); (120005, 120069); (120071, 120074); (120077, 120084);
   (120086, 120092); (120094, 120121); (120123, 120126); (120128, 120132);
   (120134, 120134); (120138, 120144); (120146, 120485); (120488, 120512);
   (120514, 120538); (120540, 120570); (120572, 120596); (120598, 120628);
   (120630, 120654); (120656, 120686); (120688, 120712); (120714, 120744);
   (120746, 120770); (120772, 120779); (122624, 122633); (122635, 122654);
   (125184, 125251); (127280, 127305); (127312, 127337); (127344, 127369)
  ].

Definition lowercase_ranges : list (Z * Z * Z * Z) :=
  [
   (65, 90, 1, 32); (192, 214, 1, 32); (216, 222, 1, 32); (256, 302, 2, 1);
   (306, 310, 2, 1); (313, 327, 2, 1); (330, 374, 2, 1);
   (376, 376, 1, (-121)); (377, 381, 2, 1); (385, 385, 1, 210);
   (386, 388, 2, 1); (390, 390, 1, 206); (391, 391, 1, 1);
   (393, 394, 1, 205); (395, 395, 1, 1); (398, 398, 1, 79);
   (399, 399, 1, 202); (400, 400, 1, 203); (401, 401, 1, 1);
   (403, 403, 1, 205); (404, 404, 1, 207); (406, 406, 1, 211);
   (407, 407, 1, 209); (408, 408, 1, 1); (412, 412, 1, 211);
   (413, 413, 1, 213); (415, 415, 1, 214); (416, 420, 2, 1);
   (422, 422, 1, 218); (423, 423, 1, 1); (425, 425, 1, 218);
   (428, 428, 1, 1); (430, 430, 1, 218); (431, 431, 1, 1);
   (433, 434, 1, 217); (435, 437, 2, 1); (439, 439, 1, 219);
   (440, 440, 1, 1); (444, 444, 1, 1); (452, 452, 1, 2); (453, 453, 1, 1);
   (455, 455, 1, 2); (456, 456, 1, 1); (458, 458, 1, 2); (459, 475, 2, 1);
   (478, 494, 2, 1); (497, 497, 1, 2); (498, 500, 2, 1);
   (502, 502, 1, (-97)); (503, 503, 1, (-56)); (504, 542, 2, 1);
   (544, 544, 1, (-130)); (546, 562, 2, 1); (570, 570, 1, 10795);
   (571, 571, 1, 1); (573, 573, 1, (-163)); (574, 574, 1, 10792);
   (577, 577, 1, 1); (579, 579, 1, (-195)); (580, 580, 1, 69);
   (581, 581, 1, 71); (582, 590, 2, 1); (880, 882, 2, 1); (886, 886, 1, 1);
   (895, 895, 1, 116); (902, 902, 1, 38); (904, 906, 1, 37);
   (908, 908, 1, 64); (910, 911, 1, 63); (913, 929, 1, 32);
   (931, 939, 1, 32); (975, 975, 1, 8); (984, 1006, 2, 1);
   (1012, 1012, 1, (-60)); (1015, 1015, 1, 1); (1017, 1017, 1, (-7));
   (1018, 1018, 1, 1); (1021, 1023, 1, (-130)); (1024, 1039, 1, 80);
   (1040, 1071, 1, 32); (1120, 1152, 2, 1); (1162, 1214, 2, 1);
   (1216, 1216, 1, 15); (1217, 1229, 2, 1); (1232, 1326, 2, 1);
   (1329, 1366, 1, 48); (4256, 4293, 1, 7264); (4295, 4295, 1, 7264);
   (4301, 4301, 1, 7264); (5024, 5103, 1, 38864); (5104, 5109, 1, 8);
   (7312, 7354, 1, (-3008)); (7357, 7359, 1, (-3008)); (7680, 7828, 2, 1);
   (7838, 7838, 1, (-7615)); (7840, 7934, 2, 1); (7944, 7951, 1, (-8));
   (7960, 7965, 1, (-8)); (7976, 7983, 1, (-8)); (7992, 7999, 1, (-8));
   (8008, 8013, 1, (-8)); (8025, 8031, 2, (-8)); (8040, 8047, 1, (-8));
   (8072, 8079, 1, (-8)); (8088, 8095, 1, (-8)); (8104, 8111, 1, (-8));
   (8120, 8121, 1, (-8)); (8122, 8123, 1, (-74)); (8124, 8124, 1, (-9));
   (8136, 8139, 1, (-86)); (8140, 8140, 1, (-9)); (8152, 8153, 1, (-8));
   (8154, 8155, 1, (-100)); (8168, 8169, 1, (-8)); (8170, 8171, 1, (-112));
   (8172, 8172, 1, (-7)); (8184, 8185, 1, (-128)); (8186, 8187, 1, (-126));
   (8188, 8188, 1, (-9)); (8486, 8486, 1, (-7517)); (8490, 8490, 1, (-8383));
   (8491, 8491, 1, (-8262)); (8498, 8498, 1, 28); (8544, 8559, 1, 16);
   (8579, 8579, 1, 1); (9398, 9423, 1, 26); (11264, 11311, 1, 48);
   (11360, 11360, 1, 1); (11362, 11362, 1, (-10743));
   (11363, 11363, 1, (-3814)); (11364, 11364, 1, (-10727));
   (11367, 11371, 2, 1); (11373, 11373, 1, (-10780));
   (11374, 11374, 1, (-10749)); (11375, 11375, 1, (-10783));
   (11376, 11376, 1, (-10782)); (11378, 11378, 1, 1); (11381, 11381, 1, 1);
   (11390, 11391, 1, (-10815)); (11392, 11490, 2, 1); (11499, 11501, 2, 1);
   (11506, 11506, 1, 1); (42560, 42604, 2, 1); (42624, 42650, 2, 1);
   (42786, 42798, 2, 1); (42802, 42862, 2, 1); (42873, 42875, 2, 1);
   (42877, 42877, 1, (-35332)); (42878, 42886, 2, 1); (42891, 42891, 1, 1);
   (42893, 42893, 1, (-42280)); (42896, 42898, 2, 1); (42902, 42920, 2, 1);
   (42922, 42922, 1, (-42308)); (42923, 42923, 1, (-42319));
   (42924, 42924, 1, (-42315)); (42925, 42925, 1, (-42305));
   (42926, 42926, 1, (-42308)); (42928, 42928, 1, (-42258));
   (42929, 42929, 1, (-42282)); (42930, 42930, 1, (-42261));
   (42931, 42931, 1, 928); (42932, 42946, 2, 1); (42948, 42948, 1, (-48));
   (42949, 42949, 1, (-42307)); (42950, 42950, 1, (-35384));
   (42951, 42953, 2, 1); (42960, 42960, 1, 1); (42966, 42968, 2, 1);
   (42997, 42997, 1, 1); (65313, 65338, 1, 32); (66560, 66599, 1, 40);
   (66736, 66771, 1, 40); (66928, 66938, 1, 39); (66940, 66954, 1, 39);
   (66956, 66962, 1, 39); (66964, 66965, 1, 39); (68736, 68786, 1, 64);
   (71840, 71871, 1, 32); (93760, 93791, 1, 32); (125184, 125217, 1, 34)
  ].

Definition in_ranges (c : Z) (ranges : list (Z * Z)) : bool :=
  existsb (fun r => (fst r <=? c) && (c <=? snd r))%Z ranges.

Definition Cased (c : Z) : bool := in_ranges c cased_ranges.

Definition Case_Ignorable (c : Z) : bool := in_ranges c case_ignorable_ranges.

Definition covers (c : Z) (r : Z * Z * Z * Z) : bool :=
  let '(first, last, step, _) := r in
  ((first <=? c) && (c <=? last) && ((c - first) mod step =? 0))%Z.

Definition simple_lowercase (c : Z) : Z :=
  match find (covers c) lowercase_ranges with
  | Some (_, _, _, delta) => (c + delta)%Z
  | None => c
  end.

(** [l] begins with case-ignorable characters, none or more, and then a
    cased letter. *)
Fixpoint cased_next (l : list Z) : bool :=
  match l with
  | [] => false
  | c :: l' => if Case_Ignorable c then cased_next l' else Cased c
  end.

(** [before]: the code points before the sigma, the nearest first;
    [after]: those after it. *)
Definition Final_Sigma (before after : list Z) : bool :=
  cased_next before && negb (cased_next after).

Fixpoint toLower (before l : list Z) : list Z :=
  match l with
  | [] => []
  | c :: l' =>
      (if (c =? 931)%Z then [if Final_Sigma before l' then 962%Z else 963%Z]
       else if (c =? 304)%Z then [105%Z; 775%Z]
       else [simple_lowercase c])
      ++ toLower (c :: before) l'
  end.

(** *** UTF-8

    [decode] reads the code points of a byte string; a byte that is not
    part of a well-formed sequence is kept apart ([stray]), so that
    [encode] gives it back as it was. *)
Definition byte (a : ascii) : Z := Z.of_N (N_of_ascii a).

Definition chr (b : Z) : ascii := ascii_of_N (Z.to_N b).

Definition continuation (b : Z) : bool := ((128 <=? b) && (b <=? 191))%Z.

Definition stray (b : Z) : Z := (1114112 + b)%Z.

Fixpoint decode (s : string) : list Z :=
  match s with
  | EmptyString => []
  | String a1 s1 =>
      let b1 := byte a1 in
      if (b1 <? 128)%Z then b1 :: decode s1
      else
        match s1 with
        | EmptyString => [stray b1]
        | String a2 s2 =>
            let b2 := byte a2 in
            let c2 := ((b1 - 192) * 64 + (b2 - 128))%Z in
            if ((194 <=? b1) && (b1 <=? 223))%Z && continuation b2
            then c2 :: decode s2
            else
              match s2 with
              | EmptyString => stray b1 :: decode s1
              | String a3 s3 =>
                  let b3 := byte a3 in
                  let c3 := ((b1 - 224) * 4096 + (b2 - 128) * 64 + (b3 - 128))%Z in
                  if ((224 <=? b1) && (b1 <=? 239))%Z
                     && continuation b2 && continuation b3
                     && (2048 <=? c3)%Z
                     && negb ((55296 <=? c3) && (c3 <=? 57343))%Z
                  then c3 :: decode s3
                  else
                    match s3 with
                    | EmptyString => stray b1 :: decode s1
                    | String a4 s4 =>
                        let b4 := byte a4 in
                        let c4 := ((b1 - 240) * 262144 + (b2 - 128) * 4096
                                   + (b3 - 128) * 64 + (b4 - 128))%Z in
                        if ((240 <=? b1) && (b1 <=? 244))%Z
                           && continuation b2 && continuation b3
                           && continuation b4
                           && ((65536 <=? c4) && (c4 <=? 1114111))%Z
                        then c4 :: decode s4
                        else stray b1 :: decode s1
                    end
              end
        end
  end.

Definition encode1 (c : Z) : string :=
  if (c <? 128)%Z then String (chr c) ""
  else if (c <? 2048)%Z then
    String (chr (192 + c / 64)) (String (chr (128 + c mod 64)) "")
  else if (c <? 65536)%Z then
    String (chr (224 + c / 4096))
      (String (chr (128 + (c / 64) mod 64)) (String (chr (128 + c mod 64)) ""))
  else if (c <? 1114112)%Z then
    String (chr (240 + c / 262144))
      (String (chr (128 + (c / 4096) mod 64))
         (String (chr (128 + (c / 64) mod 64)) (String (chr (128 + c mod 64)) "")))
  else String (chr (c - 1114112)) "".

Definition encode (l : list Z) : string := String.concat "" (map encode1 l).
End Unicode.

(** ** Filtering (lines 193-195) *)

(** [String.prototype.toLowerCase]. *)
Definition toLowerCase (s : string) : string :=
  Unicode.encode (Unicode.toLower [] (Unicode.decode s)).

(** [s.includes(q)]: [q] occurs in [s] at some position. *)
Fixpoint includes (s q : string) : bool :=
  String.prefix q s
  || match s with
     | EmptyString => false
     | String _ s' => includes s' q
     end.

Definition matches_query (query : string) (m : Memo.t) : bool :=
  includes (toLowerCase (Memo.title m)) (toLowerCase query).

Definition filteredMemos (r : App) : list Memo.t :=
  filter (matches_query (searchQuery r)) (memos r).

(** ** What a render offers (lines 210-397)

    While [isRecording] holds the component returns the recording overlay,
    whose only control is the stop button; otherwise the list page, and the
    player panel when [activeMemo] is defined. *)
Inductive Control :=
| StopButton
| StartButton
| SearchInput
| MemoItem (i : nat)
| TitleInput
| Scrubber
| SpeedButton
| ModeButton
| RewindButton
| PlayPauseButton
| ForwardButton
| DeleteButton.

Definition rendered (r : App) (c : Control) : bool :=
  if isRecording r then
    match c with StopButton => true | _ => false end
  else
    match c with
    | StopButton => false
    | StartButton | SearchInput => true
    | MemoItem i => (i <? List.length (filteredMemos r))%nat
    | _ => match activeMemo r with Some _ => true | None => false end
    end.

(** ** Events

    One event is one task of the page: a user action on a rendered control,
    run to completion with the events it makes the audio element or the
    recorder fire, or something the browser does on its own.  The arguments
    are what the environment contributes.

    [GetUserMedia_settles request granted now]: the promise of the
    suspended call number [request] settles and the call resumes.
    [Audio_timeupdate] is the [timeupdate] of a playing element, with the
    position reached; the [timeupdate] that follows a seek, a pause or a
    load is queued by the element itself ([Audio.pending]). *)
Inductive Event :=
| Click_start
| GetUserMedia_settles (request : nat) (granted : bool) (now : Z)
| Click_stop (data : Blob) (now1 now2 : Z) (objectURL : string)
| Type_search (q : string)
| Click_memo (i : nat) (o : Audio.PlayOutcome)
| Type_title (newTitle : string)
| Scrub (value : Q)
| Click_speed
| Click_mode
| Click_rewind
| Click_forward
| Click_playPause (o : Audio.PlayOutcome)
| Click_delete
| Timer_fires (timer : nat) (now : Z)
| Audio_timeupdate (position : Q)
| Audio_loadedmetadata (audio_duration : option Q)
| Audio_ended (listener_isPlaying : bool) (o : Audio.PlayOutcome).

(** A call of [play()] inside a click handler has the user's activation, so
    it is not refused. *)
Definition by_gesture (o : Audio.PlayOutcome) : bool :=
  match o with Audio.NotAllowed => false | _ => true end.

Definition guard (b : bool) (s : App) : option App := if b then Some s else None.

(** The render the [ended] listener closes over: the store, the active id and
    the mode are the current ones (the effect that registers the listener
    runs again when one of them changes), [isPlaying] is the listener's
    own. *)
Definition listener_render (listener_isPlaying : bool) (s : App) : App :=
  setIsPlaying listener_isPlaying s.

(** [l] without its element number [k]. *)
Definition without {A} (k : nat) (l : list A) : list A :=
  firstn k l ++ skipn (S k) l.

(** The handler an event runs, when the render offers the control (or the
    browser is in a state to produce the event). *)
Definition handle (s : App) (e : Event) : option App :=
  match e with
  | Click_start =>
      guard (rendered s StartButton) (startRecording s s)
  | GetUserMedia_settles request granted now =>
      match nth_error (awaiting s) request with
      | Some call =>
          Some (startRecording_resumes call granted now
                  (set_awaiting (without request (awaiting s)) s))
      | None => None
      end
  | Click_stop data now1 now2 objectURL =>
      if rendered s StopButton then
        match mediaRecorderRef s with
        | Some rec =>
            if is_recording rec s
            then Some (recorder_stopped rec data now1 now2 objectURL (stopRecording s s))
            else Some (stopRecording s s)
        | None => Some (stopRecording s s)
        end
      else None
  | Type_search q =>
      guard (rendered s SearchInput) (setSearchQuery q s)
  | Click_memo i o =>
      match nth_error (filteredMemos s) i with
      | Some memo => guard (rendered s (MemoItem i) && by_gesture o) (playMemo s o memo s)
      | None => None
      end
  | Type_title newTitle =>
      guard (rendered s TitleInput) (title_onChange s newTitle s)
  | Scrub value =>
      guard (rendered s Scrubber && Qle_bool 0 value && Qle_bool value (scrubber_max s))
            (scrubber_onChange value s)
  | Click_speed =>
      guard (rendered s SpeedButton) (playbackRate_effect (cycleSpeed s s))
  | Click_mode =>
      guard (rendered s ModeButton) (togglePlaybackMode s s)
  | Click_rewind =>
      guard (rendered s RewindButton) (skipTime s (-15) s)
  | Click_forward =>
      guard (rendered s ForwardButton) (skipTime s 15 s)
  | Click_playPause o =>
      guard (rendered s PlayPauseButton && by_gesture o) (playPause_onClick s o s)
  | Click_delete =>
      match activeMemo s with
      | Some active => guard (rendered s DeleteButton) (deleteMemo s (Memo.id active) s)
      | None => None
      end
  | Timer_fires timer now =>
      match find (fun t => Nat.eqb (fst t) timer) (intervals s) with
      | Some (_, startTime) => Some (interval_callback startTime now s)
      | None => None
      end
  | Audio_timeupdate position =>
      guard (negb (Audio.paused (audioRef s)) && Qle_bool 0 position)
            (updateTime (audio_set (Audio.advance position) s))
  | Audio_loadedmetadata audio_duration =>
      guard (match audio_duration with Some d => Qle_bool 0 d | None => true end)
            (updateDuration audio_duration (audio_set Audio.metadata_loaded s))
  | Audio_ended listener_isPlaying o =>
      guard (negb (Audio.paused (audioRef s)))
            (handlePlaybackEnded (listener_render listener_isPlaying s) o
               (onPause (updateTime (audio_set Audio.reach_end s))))
  end.

(** One event: its handler, then the events the element queued meanwhile. *)
Definition step (s : App) (e : Event) : option App :=
  option_map flush (handle s e).

Fixpoint run (s : App) (evs : list Event) : option App :=
  match evs with
  | [] => Some s
  | e :: evs' =>
      match step s e with
      | Some s' => run s' evs'
      | None => None
      end
  end.

(** The states the component can be in. *)
Definition reachable (s : App) : Prop := exists evs, run initial evs = Some s.

(** ** Invariants of the reachable states (stated here, proved below)

    - [inv_pending]: between two events the element has no event queued;
    - [inv_mirror]: while a memo is active, [isPlaying] mirrors the
      element's [paused] attribute;
    - [inv_inactive]: with no memo active the element is paused;
    - [inv_quiet]: nothing plays while the overlay is shown;
    - [inv_active]: [activeMemoId], when set, is the id of a memo of the
      store. *)
Record Inv (s : App) : Prop := mkInv {
  inv_pending : Audio.pending (audioRef s) = [];
  inv_mirror : activeMemoId s <> None ->
               isPlaying s = negb (Audio.paused (audioRef s));
  inv_inactive : activeMemoId s = None -> Audio.paused (audioRef s) = true;
  inv_quiet : isRecording s = true ->
              Audio.paused (audioRef s) = true /\ isPlaying s = false;
  inv_active : forall a, activeMemoId s = Some a ->
               exists m, In m (memos s) /\ Memo.id m = a
}.

(** ** The books of the recording sessions (stated here, proved below)

    - [ses_pairs]: as many timers run as recorders record;
    - [ses_refs]: [mediaRecorderRef] and [recordingTimerRef] are set
      together, and the timer of the one runs exactly when the recorder of
      the other records;
    - [ses_handles], [ses_distinct]: the handles in use were given out, each
      once;
    - [ses_chunks]: while the recorder of [mediaRecorderRef] records, no
      chunk is buffered (it is started without a time slice, so its data
      arrive when it stops). *)
Definition timer_runs (timer : nat) (s : App) : bool :=
  existsb (fun t => Nat.eqb (fst t) timer) (intervals s).

Record Sessions (s : App) : Prop := mkSessions {
  ses_pairs : List.length (intervals s) = List.length (recorders s);
  ses_refs : match mediaRecorderRef s, recordingTimerRef s with
             | Some rec, Some timer => is_recording rec s = timer_runs timer s
             | None, None => True
             | _, _ => False
             end;
  ses_handles : (forall rec, In rec (recorders s) ->
                   (MediaRecorder.stream rec < nextHandle s)%nat)
                /\ (forall t, In t (intervals s) -> (fst t < nextHandle s)%nat);
  ses_distinct : NoDup (map MediaRecorder.stream (recorders s))
                 /\ NoDup (map fst (intervals s));
  ses_chunks : forall rec, mediaRecorderRef s = Some rec ->
               is_recording rec s = true -> audioChunksRef s = []
}.

(** ** Sample runs

    [recorded_once]: one recording, from the first render.  The permission
    is granted; the timer (handle 2; the stream took handle 1) fires 3.2 s
    after the start, then the user stops.  [recorded_twice] adds a second
    recording. *)
Definition recorded_once : list Event :=
  [Click_start; GetUserMedia_settles 0 true 1000; Timer_fires 2 4200;
   Click_stop "abc" 5000 5001 "blob:1"].

Definition recorded_twice : list Event :=
  (recorded_once
   ++ [Click_start; GetUserMedia_settles 0 true 7000;
       Click_stop "de" 9000 9001 "blob:2"])%list.

(** [playing_first]: the memo of [recorded_once], then a click on it. *)
Definition playing_first : list Event :=
  (recorded_once ++ [Click_memo 0 Audio.Plays])%list.

(** [stopped_too_early]: after one recording the user starts a second one
    and clicks the stop button while the permission prompt is still open;
    then the permission is granted. *)
Definition stopped_too_early : list Event :=
  (recorded_once
   ++ [Click_start; Click_stop "" 6000 6001 "blob:2";
       GetUserMedia_settles 0 true 7000])%list.

(** ** Runs in which the user waits for the prompt

    [patient s evs]: along the run of [evs] from [s], the stop button is
    never clicked while a call of [startRecording] is suspended. *)
Definition is_stop (e : Event) : bool :=
  match e with Click_stop _ _ _ _ => true | _ => false end.

Definition no_call_suspended (s : App) : bool :=
  match awaiting s with [] => true | _ => false end.

Fixpoint patient (s : App) (evs : list Event) : bool :=
  match evs with
  | [] => true
  | e :: evs' =>
      (negb (is_stop e) || no_call_suspended s)
      && match step s e with
         | Some s' => patient s' evs'
         | None => true
         end
  end.

(** What such runs keep (stated here, proved below): outside the overlay
    nothing of a recording is left; under it either the one call is
    suspended or the one recorder records, and both read a [recordingTime]
    of 0; every memo has [duration] 0. *)
Record Calm (s : App) : Prop := mkCalm {
  calm_idle : isRecording s = false ->
              recordingTime s = 0 /\ recorders s = [] /\ intervals s = []
              /\ awaiting s = [];
  calm_busy : isRecording s = true ->
              (recordingTime s = 0 /\ recorders s = [] /\ intervals s = []
               /\ exists call, awaiting s = [call]
                               /\ Suspended.recordingTime call = 0)
              \/ (awaiting s = []
                  /\ exists rec timer startTime,
                       mediaRecorderRef s = Some rec /\ recorders s = [rec]
                       /\ MediaRecorder.onstop_recordingTime rec = 0
                       /\ recordingTimerRef s = Some timer
                       /\ intervals s = [(timer, startTime)]);
  calm_durations : forall m, In m (memos s) -> Memo.duration m = 0
}.

(** ** What the specification asks of the search *)

(** Two characters are the same letter, case apart: they are equal, or one
    is a capital letter [A]-[Z] and the other the small letter, 32 places
    further in ASCII. *)
Definition same_letter (a b : ascii) : Prop :=
  a = b
  \/ ((65 <= nat_of_ascii a <= 90)%nat /\ nat_of_ascii b = (nat_of_ascii a + 32)%nat)
  \/ ((65 <= nat_of_ascii b <= 90)%nat /\ nat_of_ascii a = (nat_of_ascii b + 32)%nat).

Inductive same_text : string -> string -> Prop :=
| same_empty : same_text "" ""
| same_more a b s t :
    same_letter a b -> same_text s t -> same_text (String a s) (String b t).

(** What the words of the specification ask of a title: some substring of
    it is the query, letter case apart. *)
Definition title_contains (query title : string) : Prop :=
  exists before found after,
    title = before ++ found ++ after /\ same_text found query.

(** The small letter of a capital letter [A]-[Z]; any other character is
    left as it is.  [small_text] is what [toLowerCase] makes of ASCII text
    (proved below). *)
Definition small (a : ascii) : ascii :=
  let b := Unicode.byte a in
  if ((65 <=? b) && (b <=? 90))%Z then Unicode.chr (b + 32) else a.

Fixpoint small_text (s : string) : string :=
  match s with
  | EmptyString => EmptyString
  | String a s' => String (small a) (small_text s')
  end.

(** Text of ASCII characters only. *)
Fixpoint ascii_only (s : string) : bool :=
  match s with
  | EmptyString => true
  | String a s' => (nat_of_ascii a <? 128)%nat && ascii_only s'
  end.

(** [kept] is the subsequence of [l] that holds exactly the elements
    satisfying [P], in the order of [l]. *)
Inductive exactly_those {A} (P : A -> Prop) : list A -> list A -> Prop :=
| those_nil : exactly_those P [] []
| those_keep x l kept : P x -> exactly_those P l kept -> exactly_those P (x :: l) (x :: kept)
| those_drop x l kept : ~ P x -> exactly_those P l kept -> exactly_those P (x :: l) kept.

(** ** Ids and the clock *)

Definition ids (s : App) : list string := map Memo.id (memos s).

(** The clock reading an event turns into an id: the first reading of a
    click on the stop button that stops a recorder. *)
Definition id_clock (s : App) (e : Event) : list Z :=
  match e with
  | Click_stop _ now1 _ _ =>
      match mediaRecorderRef s with
      | Some rec => if rendered s StopButton && is_recording rec s then [now1] else []
      | None => []
      end
  | _ => []
  end.

(** The readings that become ids along the run of [evs] from [s]. *)
Fixpoint id_clocks (s : App) (evs : list Event) : list Z :=
  match evs with
  | [] => []
  | e :: evs' =>
      id_clock s e
      ++ match step s e with
         | Some s' => id_clocks s' evs'
         | None => []
         end
  end.

(** ** The waveform (src/components/Waveform.tsx)

    The component draws 60 bars.  [random k] is what the [k]-th call of
    [Math.random()] of the render returns; each bar makes two calls, the
    first for its height, the second for its animation delay. *)
Module Waveform.
Record Bar := mkBar {
  height : Z;
  animationClass : string;
  opacity : Q;
  backgroundColor : string;
  animationDelay : Q
}.

Definition bar (isPlaying isRecording : bool) (random : nat -> Q) (i : nat) : Bar :=
  mkBar (Z.max 10 (Qfloor (random (2 * i)%nat * 100)))
        (if isPlaying || isRecording then "animate-pulse" else "")
        (if isRecording then 1 else 3 # 10)
        (if isRecording then "#ff3b30" else "#333")
        (random (2 * i + 1)%nat * 1).

Definition Waveform (isPlaying isRecording : bool) (random : nat -> Q) : list Bar :=
  map (bar isPlaying isRecording random) (seq 0 60).
End Waveform.

(** ** The buttons as the render wires them (lines 350-362) *)

Definition click_mode (s : App) : App := togglePlaybackMode s s.

(** The speed button, with the effect that follows the change of
    [playbackRate]. *)
Definition click_speed (s : App) : App := playbackRate_effect (cycleSpeed s s).

(** ** Ranges kept by the reachable states (stated here, proved below)

    - [rng_rate]: [playbackRate] is one of [PLAYBACK_SPEEDS];
    - [rng_element_rate]: the element's rate is the state's or the default;
    - [rng_duration], [rng_position]: [duration], [playbackTime] and the
      element's position are not negative. *)
Record Ranges (s : App) : Prop := mkRanges {
  rng_rate : In (playbackRate s) PLAYBACK_SPEEDS;
  rng_element_rate : Audio.playbackRate (audioRef s) = playbackRate s
                     \/ Audio.playbackRate (audioRef s) = Audio.defaultPlaybackRate;
  rng_duration : 0 <= duration s;
  rng_position : 0 <= playbackTime s /\ 0 <= Audio.currentTime (audioRef s)
}.

(** ** Proof tactics *)

Ltac open_state s :=
  destruct s as [ms act rec rt pl pt du rate mode sq mref chunks tref
                 [src pz ct pr err en rs pend] aw recs ivs nh].

Ltac inv_fin := split; cbn; try discriminate; try congruence; auto.

Ltac rng_fin :=
  split; cbn; auto; try discriminate; try congruence;
  try (split; auto; try discriminate; try apply Qle_refl).

(** * Properties *)

(** ** Arrays *)

Lemma findIndex_range {A} (p : A -> bool) (l : list A) :
  findIndex p l = (-1)%Z \/ (0 <= findIndex p l < length_Z l)%Z.
Proof.
  unfold length_Z. induction l as [|x l IH]; cbn [findIndex List.length].
  - now left.
  - destruct (p x); [right; lia|].
    destruct (Z.eqb_spec (findIndex p l) (-1)); [now left|].
    right. destruct IH; lia.
Qed.

Lemma findIndex_none {A} (p : A -> bool) (l : list A) :
  findIndex p l = (-1)%Z <-> (forall x, In x l -> p x = false).
Proof.
  induction l as [|x l IH]; cbn [findIndex].
  - split; [intros _ y []|reflexivity].
  - destruct (p x) eqn:Hx.
    + split; [discriminate|]. intros H. rewrite (H x) in Hx by now left. discriminate.
    + destruct (Z.eqb_spec (findIndex p l) (-1)) as [E|E].
      * split; [|reflexivity]. intros _ y [<-|Hy]; [assumption|]. now apply IH.
      * split.
        -- pose proof (findIndex_range p l). lia.
        -- intros H. exfalso. apply E, IH. intros y Hy. apply H. now right.
Qed.

Lemma at_index_In {A} (l : list A) (i : Z) (x : A) :
  at_index l i = Some x -> In x l.
Proof.
  unfold at_index. destruct (i <? 0)%Z; [discriminate|]. apply nth_error_In.
Qed.

Lemma at_index_Some {A} (l : list A) (i : Z) :
  (0 <= i < length_Z l)%Z -> exists x, at_index l i = Some x.
Proof.
  unfold at_index, length_Z. intros H.
  destruct (Z.ltb_spec i 0); [lia|].
  destruct (nth_error l (Z.to_nat i)) eqn:E; [eauto|].
  apply nth_error_None in E. lia.
Qed.

(** The indices [handlePlaybackEnded] reads are in range: the [None] arms
    of its lookups are never taken. *)
Lemma next_index_in_range {A} (p : A -> bool) (l : list A) :
  findIndex p l <> (-1)%Z ->
  (exists x, at_index l ((findIndex p l + 1) mod length_Z l) = Some x)
  /\ ((findIndex p l <? length_Z l - 1)%Z = true ->
      exists x, at_index l (findIndex p l + 1) = Some x).
Proof.
  intros H. destruct (findIndex_range p l) as [E|R]; [contradiction|].
  split.
  - apply at_index_Some. apply Z.mod_pos_bound. lia.
  - intros Hlt. apply Z.ltb_lt in Hlt. apply at_index_Some. lia.
Qed.

(** The element [findIndex] points at satisfies the test. *)
Lemma findIndex_found {A} (p : A -> bool) (l : list A) :
  findIndex p l <> (-1)%Z ->
  exists x, at_index l (findIndex p l) = Some x /\ p x = true.
Proof.
  induction l as [|x l IH]; cbn [findIndex]; [congruence|].
  destruct (p x) eqn:Hx; [intros _; exists x; now split|].
  destruct (Z.eqb_spec (findIndex p l) (-1)) as [E|E]; [congruence|].
  intros _. destruct (IH E) as (y & Hy & Py). exists y. split; [|assumption].
  pose proof (findIndex_range p l) as R.
  unfold at_index in *.
  destruct (Z.ltb_spec (findIndex p l) 0); [lia|].
  destruct (Z.ltb_spec (findIndex p l + 1) 0); [lia|].
  replace (Z.to_nat (findIndex p l + 1)) with (S (Z.to_nat (findIndex p l))) by lia.
  exact Hy.
Qed.

(** ** Events of the audio element *)

(** The listeners write [isPlaying] and [playbackTime] only. *)
Lemma dispatch_frame evs s :
  dispatch evs s
  = setPlaybackTime (playbackTime (dispatch evs s))
      (setIsPlaying (isPlaying (dispatch evs s)) s).
Proof.
  revert s. induction evs as [|e evs IH]; intros s.
  - now destruct s.
  - cbn. unfold dispatch in IH. rewrite IH. destruct s, e; reflexivity.
Qed.

Lemma flush_frame s :
  flush s
  = setPlaybackTime (playbackTime (flush s))
      (setIsPlaying (isPlaying (flush s))
         (set_audioRef (Audio.clear_pending (audioRef s)) s)).
Proof. unfold flush. apply dispatch_frame. Qed.

Lemma flush_memos s : memos (flush s) = memos s.
Proof. now rewrite flush_frame. Qed.

Lemma flush_audio s : audioRef (flush s) = Audio.clear_pending (audioRef s).
Proof. now rewrite flush_frame. Qed.

(** With nothing queued, [flush] changes nothing. *)
Lemma flush_idle s : Audio.pending (audioRef s) = [] -> flush s = s.
Proof.
  open_state s. cbn. intros ->. reflexivity.
Qed.

(** ** The invariants hold

    at the first render and after every event. *)
Lemma Inv_initial : Inv initial.
Proof.
  split; cbn; try discriminate; auto; try tauto.
Qed.

Lemma filteredMemos_In r m : In m (filteredMemos r) -> In m (memos r).
Proof. unfold filteredMemos. intros H. now apply filter_In in H. Qed.

Lemma activeMemo_active r m : activeMemo r = Some m -> activeMemoId r <> None.
Proof.
  unfold activeMemo. intros H. apply find_some in H. destruct H as [_ H].
  destruct (activeMemoId r); [discriminate|discriminate H].
Qed.

Lemma playMemo_Inv r o memo s :
  Inv s -> isRecording s = false -> activeMemoId r = activeMemoId s ->
  In memo (memos s) -> by_gesture o = true \/ isPlaying s = false ->
  Inv (flush (playMemo r o memo s)).
Proof.
  intros [Pe M Ia Qt Ac] R E I G.
  open_state s. cbn in *. subst rec pend.
  unfold playMemo, flush, audio_set. rewrite E. cbn.
  destruct (id_is act (Memo.id memo)) eqn:Hid; cbn.
  - assert (Hact : act <> None) by (destruct act; [discriminate|discriminate Hid]).
    specialize (M Hact).
    destruct (isPlaying r); cbn.
    + destruct pz; cbn in *; subst; inv_fin.
    + destruct err; cbn; [inv_fin|].
      destruct o, pz, en; cbn in *; subst; inv_fin.
  - unfold Audio.play, Audio.set_src, Audio.load, Audio.has_metadata. cbn.
    destruct o; cbn in *; subst.
    1,2: inv_fin; injection 1 as <-; eauto.
    destruct G as [G|G]; [discriminate|]. subst.
    inv_fin; injection 1 as <-; eauto.
Qed.

Lemma handlePlaybackEnded_Inv r o s :
  Inv s -> isRecording s = false -> activeMemoId r = activeMemoId s ->
  memos r = memos s -> isPlaying s = false -> activeMemoId s <> None ->
  Inv (flush (handlePlaybackEnded r o s)).
Proof.
  intros HI R E Em P Hact.
  assert (F : Inv (flush s)).
  { destruct HI as [Pe M Ia Qt Ac]. open_state s. cbn in *. subst.
    inv_fin. }
  unfold handlePlaybackEnded.
  destruct (PlaybackMode_eqb (playbackMode r) LOOP_ONE).
  - destruct HI as [Pe M Ia Qt Ac]. open_state s. cbn in *.
    subst pl pend rec.
    assert (Hp : pz = true).
    { destruct act; [|auto]. specialize (M ltac:(discriminate)). now destruct pz. }
    subst pz. unfold flush, audio_set, Audio.play, Audio.set_currentTime, Audio.seek. cbn.
    destruct rs, err; cbn; try (inv_fin; fail).
    all: destruct o; cbn in *; try discriminate;
      repeat match goal with |- context [if ?b then _ else _] => destruct b end;
      cbn; inv_fin.
  - destruct (_ =? -1)%Z; [assumption|].
    destruct (PlaybackMode_eqb (playbackMode r) SEQUENTIAL).
    + destruct (_ <? _)%Z.
      * destruct (at_index _ _) eqn:A; [|assumption].
        apply playMemo_Inv; auto. rewrite <- Em. eapply at_index_In; eauto.
      * destruct HI as [Pe M Ia Qt Ac]. open_state s. cbn in *. subst.
        inv_fin.
    + destruct (PlaybackMode_eqb (playbackMode r) LOOP_ALL); [|assumption].
      destruct (at_index _ _) eqn:A; [|assumption].
      apply playMemo_Inv; auto. rewrite <- Em. eapply at_index_In; eauto.
Qed.

Lemma Inv_step s e s' : Inv s -> step s e = Some s' -> Inv s'.
Proof.
  intros HI H. unfold step in H.
  destruct (handle s e) as [s1|] eqn:H1; [|discriminate]. injection H as <-.
  rename H1 into H.
  destruct e; cbn [handle] in H; unfold guard in H.
  - (* start *)
    destruct HI as [Pe M Ia Qt Ac]. open_state s. unfold rendered in H. cbn in *.
    destruct rec; [discriminate|]. injection H as <-. subst pend.
    unfold startRecording, flush, audio_set; cbn.
    destruct pz; cbn in *; inv_fin.
  - (* getUserMedia *)
    destruct (nth_error _ _) as [call|]; [|discriminate]. injection H as <-.
    destruct HI as [Pe M Ia Qt Ac]. open_state s. cbn in *. subst pend.
    unfold startRecording_resumes, flush. destruct granted; cbn; inv_fin.
  - (* stop *)
    destruct HI as [Pe M Ia Qt Ac]. open_state s. unfold rendered in H. cbn in *.
    destruct rec; [|discriminate].
    destruct (Qt eq_refl) as [-> ->]. subst pend.
    destruct mref as [mr|].
    + destruct (existsb _ _) eqn:I; injection H as <-.
      * unfold recorder_stopped, ondataavailable, stopRecording,
          MediaRecorder_stop, onstop, clearInterval, audio_set, flush. cbn.
        unfold Audio.set_src, Audio.load, Audio.has_metadata. cbn.
        destruct (0 <? blob_size data)%nat, tref, rs; cbn;
          repeat match goal with |- context [if ?b then _ else _] => destruct b end;
          cbn; inv_fin.
        all: try (injection 1 as <-; eexists; split; [left; reflexivity|reflexivity]).
      * unfold stopRecording, MediaRecorder_stop, clearInterval, flush. cbn.
        destruct tref; cbn; inv_fin.
    + injection H as <-. unfold stopRecording, flush. cbn. inv_fin.
  - (* search *)
    destruct HI as [Pe M Ia Qt Ac]. open_state s. unfold rendered in H. cbn in *.
    destruct rec; [discriminate|]. injection H as <-. subst pend. inv_fin.
  - (* memo *)
    destruct (nth_error (filteredMemos s) i) eqn:N; [|discriminate].
    unfold rendered in H. destruct (isRecording s) eqn:R; [discriminate|].
    destruct (_ <? _)%nat; [|discriminate]. cbn in H.
    destruct (by_gesture o) eqn:G; [|discriminate]. injection H as <-.
    apply playMemo_Inv; auto. apply filteredMemos_In. eapply nth_error_In; eauto.
  - (* title *)
    unfold rendered in H. destruct (isRecording s) eqn:R; [discriminate|].
    destruct (activeMemo s) eqn:A; [|discriminate]. injection H as <-.
    unfold title_onChange. rewrite A.
    destruct HI as [Pe M Ia Qt Ac]. open_state s. cbn in *. subst.
    inv_fin.
    intros a Ha. destruct (Ac a Ha) as (m & Hm & <-).
    exists (if (Memo.id m =? Memo.id t)%string then Memo.with_title newTitle m else m).
    split; [|now destruct (_ =? _)%string].
    apply in_map_iff. eauto.
  - (* scrub *)
    unfold rendered in H. destruct (isRecording s) eqn:R; [discriminate|].
    destruct (activeMemo s) eqn:A; [|discriminate]. cbn in H.
    destruct (_ && _); [|discriminate]. injection H as <-.
    destruct HI as [Pe M Ia Qt Ac]. open_state s. cbn in *. subst.
    unfold scrubber_onChange, flush, audio_set, Audio.set_currentTime. cbn.
    destruct rs; cbn; inv_fin.
  - (* speed *)
    unfold rendered in H. destruct (isRecording s) eqn:R; [discriminate|].
    destruct (activeMemo s) eqn:A; [|discriminate]. injection H as <-.
    unfold cycleSpeed. destruct (at_index _ _).
    all: destruct HI as [Pe M Ia Qt Ac]; open_state s; cbn in *; subst; inv_fin.
  - (* mode *)
    unfold rendered in H. destruct (isRecording s) eqn:R; [discriminate|].
    destruct (activeMemo s) eqn:A; [|discriminate]. injection H as <-.
    unfold togglePlaybackMode. destruct (at_index _ _).
    all: destruct HI as [Pe M Ia Qt Ac]; open_state s; cbn in *; subst; inv_fin.
  - (* rewind *)
    unfold rendered in H. destruct (isRecording s) eqn:R; [discriminate|].
    destruct (activeMemo s) eqn:A; [|discriminate]. injection H as <-.
    destruct HI as [Pe M Ia Qt Ac]; open_state s; cbn in *; subst.
    unfold skipTime, flush, audio_set, Audio.set_currentTime. cbn.
    destruct rs; cbn; inv_fin.
  - (* forward *)
    unfold rendered in H. destruct (isRecording s) eqn:R; [discriminate|].
    destruct (activeMemo s) eqn:A; [|discriminate]. injection H as <-.
    destruct HI as [Pe M Ia Qt Ac]; open_state s; cbn in *; subst.
    unfold skipTime, flush, audio_set, Audio.set_currentTime. cbn.
    destruct rs; cbn; inv_fin.
  - (* play/pause *)
    unfold rendered in H. destruct (isRecording s) eqn:R; [discriminate|].
    destruct (activeMemo s) eqn:A; [|discriminate]. cbn in H.
    destruct (by_gesture o) eqn:G; [|discriminate]. injection H as <-.
    apply activeMemo_active in A.
    destruct HI as [Pe M Ia Qt Ac]; open_state s; cbn in *; subst.
    specialize (M A).
    unfold playPause_onClick, flush, audio_set, Audio.play, Audio.pause. cbn.
    destruct pz; cbn in *; subst; cbn; [|inv_fin].
    destruct err; cbn; [inv_fin|].
    destruct o, en; cbn in *; try discriminate; inv_fin.
  - (* delete *)
    destruct (activeMemo s) eqn:A; [|discriminate].
    unfold rendered in H. destruct (isRecording s) eqn:R; [discriminate|].
    rewrite A in H. injection H as <-. clear A.
    destruct HI as [Pe M Ia Qt Ac]; open_state s; cbn in *; subst.
    unfold deleteMemo, flush, audio_set, Audio.pause. cbn.
    destruct (id_is act (Memo.id t)) eqn:E; cbn.
    + unfold Audio.set_src, Audio.load, Audio.has_metadata. cbn.
      destruct rs; cbn;
        repeat match goal with |- context [if ?b then _ else _] => destruct b end;
        cbn; inv_fin.
    + inv_fin.
      intros a Ha. destruct (Ac a Ha) as (m & Hm & <-).
      exists m. split; [|reflexivity]. apply filter_In. split; [assumption|].
      subst act. cbn in E. rewrite String.eqb_sym. now rewrite E.
  - (* timer *)
    destruct (find _ _) as [[? startTime]|] eqn:F; [|discriminate]. injection H as <-.
    destruct HI as [Pe M Ia Qt Ac]; open_state s; cbn in *. subst pend.
    inv_fin.
  - (* timeupdate *)
    destruct (negb _) eqn:P; [|discriminate]. cbn in H.
    destruct (Qle_bool 0 position); [|discriminate]. injection H as <-.
    destruct HI as [Pe M Ia Qt Ac]; open_state s; cbn in *; subst. inv_fin.
  - (* loadedmetadata *)
    destruct (match audio_duration with Some _ => _ | None => _ end); [|discriminate].
    injection H as <-.
    destruct HI as [Pe M Ia Qt Ac]; open_state s; cbn in *; subst.
    unfold updateDuration, flush, audio_set, Audio.metadata_loaded. cbn.
    destruct rs; cbn;
      repeat match goal with |- context [if ?b then _ else _] => destruct b end;
      cbn; inv_fin.
  - (* ended *)
    destruct (negb _) eqn:P; [|discriminate]. injection H as <-.
    apply negb_true_iff in P.
    assert (R : isRecording s = false).
    { destruct (isRecording s) eqn:R; [|reflexivity].
      rewrite (proj1 (inv_quiet HI R)) in P. discriminate. }
    assert (A : activeMemoId s <> None).
    { intros A. rewrite (inv_inactive HI A) in P. discriminate. }
    apply handlePlaybackEnded_Inv; try assumption; try reflexivity.
    destruct HI as [Pe M Ia Qt Ac]; open_state s; cbn in *; subst. inv_fin.
Qed.

Lemma Inv_run evs : forall s s', Inv s -> run s evs = Some s' -> Inv s'.
Proof.
  induction evs as [|e evs IH]; cbn; intros s s' HI H.
  - now injection H as <-.
  - destruct (step s e) eqn:E; [|discriminate]. eauto using Inv_step.
Qed.

Lemma reachable_Inv s : reachable s -> Inv s.
Proof. intros [evs H]. eapply Inv_run; [apply Inv_initial|eassumption]. Qed.

(** ** The books of the recording sessions *)

Lemma Sessions_initial : Sessions initial.
Proof.
  split.
  - reflexivity.
  - exact I.
  - split; intros ? [].
  - split; apply NoDup_nil.
  - discriminate.
Qed.

(** Handles: taking the element with a key out of a list with distinct
    keys shortens it by one; taking out an absent key changes nothing. *)
Lemma drop_absent {A} (key : A -> nat) (k : nat) (l : list A) :
  existsb (fun x => Nat.eqb (key x) k) l = false ->
  filter (fun x => negb (Nat.eqb (key x) k)) l = l.
Proof.
  induction l as [|x l IH]; cbn; [reflexivity|].
  destruct (Nat.eqb (key x) k); cbn; [discriminate|].
  intros H. now rewrite IH.
Qed.

Lemma drop_present {A} (key : A -> nat) (k : nat) (l : list A) :
  NoDup (map key l) ->
  existsb (fun x => Nat.eqb (key x) k) l = true ->
  S (List.length (filter (fun x => negb (Nat.eqb (key x) k)) l)) = List.length l.
Proof.
  induction l as [|x l IH]; cbn; [discriminate|].
  intros D. apply NoDup_cons_iff in D. destruct D as [Hx D].
  destruct (Nat.eqb_spec (key x) k) as [E|E]; cbn.
  - intros _. rewrite drop_absent; [reflexivity|].
    destruct (existsb _ l) eqn:X; [|reflexivity].
    apply existsb_exists in X. destruct X as (y & Hy & Ky).
    apply Nat.eqb_eq in Ky. exfalso. apply Hx. apply in_map_iff.
    exists y. split; [congruence|assumption].
  - intros H. now rewrite IH.
Qed.

Lemma drop_keys {A} (key : A -> nat) (keep : A -> bool) (l : list A) :
  NoDup (map key l) -> NoDup (map key (filter keep l)).
Proof.
  induction l as [|x l IH]; cbn; intros D; [constructor|].
  apply NoDup_cons_iff in D. destruct D as [Hx D].
  destruct (keep x); cbn; [|auto].
  constructor; [|auto]. intros Hin. apply Hx.
  apply in_map_iff in Hin. destruct Hin as (y & Ky & Hy).
  apply filter_In in Hy. apply in_map_iff. exists y. tauto.
Qed.

Lemma existsb_drop {A} (key : A -> nat) (k j : nat) (l : list A) :
  existsb (fun x => Nat.eqb (key x) j)
          (filter (fun x => negb (Nat.eqb (key x) k)) l)
  = existsb (fun x => Nat.eqb (key x) j) l && negb (Nat.eqb j k).
Proof.
  induction l as [|x l IH]; cbn; [reflexivity|].
  destruct (Nat.eqb (key x) k) eqn:E; cbn; rewrite IH;
    destruct (Nat.eqb (key x) j) eqn:F; cbn; try reflexivity.
  - apply Nat.eqb_eq in E, F.
    replace (Nat.eqb j k) with true by (symmetry; apply Nat.eqb_eq; congruence).
    cbn. now rewrite andb_false_r.
  - apply Nat.eqb_neq in E. apply Nat.eqb_eq in F.
    replace (Nat.eqb j k) with false by (symmetry; apply Nat.eqb_neq; congruence).
    reflexivity.
Qed.

Lemma is_recording_eq rec s :
  is_recording rec s
  = existsb (fun x => Nat.eqb (MediaRecorder.stream x) (MediaRecorder.stream rec))
            (recorders s).
Proof.
  unfold is_recording, MediaRecorder.eqb_stream.
  induction (recorders s) as [|x l IH]; cbn; [reflexivity|].
  now rewrite IH, Nat.eqb_sym.
Qed.

Lemma MediaRecorder_stop_eq rec s :
  recorders (MediaRecorder_stop rec s)
  = filter (fun x => negb (Nat.eqb (MediaRecorder.stream x) (MediaRecorder.stream rec)))
           (recorders s).
Proof.
  unfold MediaRecorder_stop, MediaRecorder.eqb_stream. cbn.
  apply filter_ext. intros x. now rewrite Nat.eqb_sym.
Qed.

(** The books depend on six fields only. *)
Lemma Sessions_frame s s' :
  recorders s' = recorders s -> intervals s' = intervals s ->
  mediaRecorderRef s' = mediaRecorderRef s ->
  recordingTimerRef s' = recordingTimerRef s ->
  nextHandle s' = nextHandle s -> audioChunksRef s' = audioChunksRef s ->
  Sessions s -> Sessions s'.
Proof.
  intros H1 H2 H3 H4 H5 H6 [P R H D C].
  unfold is_recording, timer_runs in *.
  split; unfold is_recording, timer_runs; rewrite ?H1, ?H2, ?H3, ?H4, ?H5, ?H6;
    auto.
Qed.

Lemma Sessions_flush s : Sessions s -> Sessions (flush s).
Proof.
  apply Sessions_frame; rewrite flush_frame; reflexivity.
Qed.

Lemma playMemo_books r o memo s :
  recorders (playMemo r o memo s) = recorders s
  /\ intervals (playMemo r o memo s) = intervals s
  /\ mediaRecorderRef (playMemo r o memo s) = mediaRecorderRef s
  /\ recordingTimerRef (playMemo r o memo s) = recordingTimerRef s
  /\ nextHandle (playMemo r o memo s) = nextHandle s
  /\ audioChunksRef (playMemo r o memo s) = audioChunksRef s
  /\ awaiting (playMemo r o memo s) = awaiting s
  /\ isRecording (playMemo r o memo s) = isRecording s
  /\ recordingTime (playMemo r o memo s) = recordingTime s.
Proof.
  unfold playMemo.
  destruct (id_is _ _); [destruct (isPlaying r)|]; repeat split.
Qed.

Lemma handlePlaybackEnded_books r o s :
  recorders (handlePlaybackEnded r o s) = recorders s
  /\ intervals (handlePlaybackEnded r o s) = intervals s
  /\ mediaRecorderRef (handlePlaybackEnded r o s) = mediaRecorderRef s
  /\ recordingTimerRef (handlePlaybackEnded r o s) = recordingTimerRef s
  /\ nextHandle (handlePlaybackEnded r o s) = nextHandle s
  /\ audioChunksRef (handlePlaybackEnded r o s) = audioChunksRef s
  /\ awaiting (handlePlaybackEnded r o s) = awaiting s
  /\ isRecording (handlePlaybackEnded r o s) = isRecording s
  /\ recordingTime (handlePlaybackEnded r o s) = recordingTime s.
Proof.
  unfold handlePlaybackEnded.
  repeat match goal with
         | |- context [if ?b then _ else _] => destruct b
         | |- context [match at_index ?l ?i with _ => _ end] => destruct (at_index l i)
         end;
    try apply playMemo_books; repeat split.
Qed.

Lemma Sessions_handle s e s' : Sessions s -> handle s e = Some s' -> Sessions s'.
Proof.
  intros HS H. destruct e; cbn [handle] in H; unfold guard in H.
  2: { (* getUserMedia *)
    destruct (nth_error _ _) as [call|]; [|discriminate]. injection H as <-.
    unfold startRecording_resumes. destruct granted.
    - destruct HS as [P R [H1 H2] [D1 D2] C]. open_state s. cbn in *.
      split; cbn.
      + now rewrite P.
      + unfold is_recording, timer_runs, MediaRecorder.eqb_stream. cbn.
        now rewrite !Nat.eqb_refl.
      + split.
        * intros x [<-|Hx]; cbn; [lia|]. specialize (H1 x Hx). lia.
        * intros x [<-|Hx]; cbn; [lia|]. specialize (H2 x Hx). lia.
      + split; constructor; auto.
        * intros Hin. apply in_map_iff in Hin. destruct Hin as (x & Kx & Hx).
          specialize (H1 x Hx). lia.
        * intros Hin. apply in_map_iff in Hin. destruct Hin as (x & Kx & Hx).
          specialize (H2 x Hx). lia.
      + reflexivity.
    - revert HS. apply Sessions_frame; reflexivity. }
  2: { (* stop *)
    destruct (rendered s StopButton) eqn:Rd; [|discriminate].
    assert (R : isRecording s = true).
    { unfold rendered in Rd. now destruct (isRecording s). }
    assert (F : Sessions (stopRecording s s)).
    { unfold stopRecording. rewrite R.
      destruct (mediaRecorderRef s) as [mr|] eqn:Mr; [|assumption].
      destruct HS as [P Rf [H1 H2] [D1 D2] C]. rewrite Mr in Rf.
      destruct (recordingTimerRef s) as [timer|] eqn:Tr; [|contradiction].
      cbn [recordingTimerRef setIsRecording MediaRecorder_stop set_recorders].
      rewrite Tr.
      assert (Er : recorders (clearInterval timer (setIsRecording false (MediaRecorder_stop mr s)))
                   = filter (fun x => negb (Nat.eqb (MediaRecorder.stream x) (MediaRecorder.stream mr)))
                            (recorders s)).
      { apply MediaRecorder_stop_eq. }
      assert (Ei : intervals (clearInterval timer (setIsRecording false (MediaRecorder_stop mr s)))
                   = filter (fun t => negb (Nat.eqb (fst t) timer)) (intervals s))
        by reflexivity.
      rewrite is_recording_eq in Rf. unfold timer_runs in Rf.
      split.
      - rewrite Er, Ei.
        destruct (existsb _ (recorders s)) eqn:X.
        + symmetry in Rf.
          pose proof (drop_present _ _ _ D1 X) as L1.
          pose proof (drop_present _ _ _ D2 Rf) as L2. lia.
        + symmetry in Rf. rewrite (drop_absent _ _ _ X), (drop_absent _ _ _ Rf).
          exact P.
      - cbn [mediaRecorderRef recordingTimerRef clearInterval set_intervals
               setIsRecording MediaRecorder_stop set_recorders].
        rewrite Mr, Tr. rewrite is_recording_eq. unfold timer_runs. rewrite Er, Ei.
        rewrite !existsb_drop, !Nat.eqb_refl. cbn. now rewrite !andb_false_r.
      - rewrite Er, Ei. split.
        + intros x Hx. apply filter_In in Hx. apply H1, Hx.
        + intros x Hx. apply filter_In in Hx. apply H2, Hx.
      - rewrite Er, Ei. split; now apply drop_keys.
      - cbn [mediaRecorderRef clearInterval set_intervals setIsRecording
               MediaRecorder_stop set_recorders].
        rewrite Mr. intros rec [= <-]. rewrite is_recording_eq, Er, existsb_drop.
        rewrite Nat.eqb_refl. cbn. rewrite andb_false_r. discriminate. }
    destruct (mediaRecorderRef s) as [mr|] eqn:Mr; [|now injection H as <-].
    destruct (is_recording mr s) eqn:I; [|now injection H as <-].
    injection H as <-.
    assert (Ms : mediaRecorderRef (stopRecording s s) = Some mr).
    { unfold stopRecording. rewrite Mr, R. cbn. now destruct (recordingTimerRef s). }
    assert (Ns : is_recording mr (stopRecording s s) = false).
    { unfold stopRecording. rewrite Mr, R.
      assert (E : forall t, is_recording mr (t : App) = is_recording mr (setIsRecording false t))
        by reflexivity.
      cbn [recordingTimerRef setIsRecording MediaRecorder_stop set_recorders].
      assert (G : is_recording mr (setIsRecording false (MediaRecorder_stop mr s)) = false).
      { rewrite is_recording_eq. cbn [recorders setIsRecording].
        rewrite MediaRecorder_stop_eq, existsb_drop, Nat.eqb_refl. cbn.
        now rewrite andb_false_r. }
      now destruct (recordingTimerRef s). }
    destruct F as [P Rf Hh D C].
    unfold recorder_stopped, onstop, ondataavailable.
    destruct (0 <? blob_size data)%nat; split; cbn; auto.
    all: try (rewrite Ms; intros rec [= <-]; unfold is_recording in *; cbn;
              rewrite Ns; discriminate).
    all: rewrite Ms in *; exact Rf. }
  all: revert HS; apply Sessions_frame.
  all: repeat match type of H with
           | (if ?b then _ else _) = Some _ => destruct b eqn:?; [|discriminate H]
           | match ?o with Some _ => _ | None => _ end = Some _ =>
               destruct o eqn:?; [|discriminate H]
           | (let (_, _) := ?p in _) = Some _ => destruct p
           end.
  all: injection H as <-; try reflexivity.
  all: try apply playMemo_books.
  all: try (unfold title_onChange; destruct (activeMemo s); reflexivity).
  all: try (unfold cycleSpeed; destruct (at_index _ _); reflexivity).
  all: try (unfold togglePlaybackMode; destruct (at_index _ _); reflexivity).
  all: try (unfold playPause_onClick; destruct (isPlaying s); reflexivity).
  all: try (unfold deleteMemo; destruct (id_is _ _); reflexivity).
  all: etransitivity; [apply handlePlaybackEnded_books|reflexivity].
Qed.

Lemma Sessions_run evs : forall s s', Sessions s -> run s evs = Some s' -> Sessions s'.
Proof.
  induction evs as [|e evs IH]; cbn; intros s s' HS H.
  - now injection H as <-.
  - unfold step in H. destruct (handle s e) as [s1|] eqn:E; [|discriminate].
    cbn in H. eapply IH; [|exact H]. apply Sessions_flush. eapply Sessions_handle; eauto.
Qed.

Lemma reachable_Sessions s : reachable s -> Sessions s.
Proof. intros [evs H]. eapply Sessions_run; [apply Sessions_initial|eassumption]. Qed.

(** ** Runs in which the user waits for the prompt *)

Lemma Calm_initial : Calm initial.
Proof.
  split; cbn; [auto|discriminate|intros ? []].
Qed.

Lemma Calm_frame s s' :
  isRecording s' = isRecording s -> recordingTime s' = recordingTime s ->
  recorders s' = recorders s -> intervals s' = intervals s ->
  awaiting s' = awaiting s ->
  mediaRecorderRef s' = mediaRecorderRef s ->
  recordingTimerRef s' = recordingTimerRef s ->
  (forall m, In m (memos s') ->
     exists m0, In m0 (memos s) /\ Memo.duration m = Memo.duration m0) ->
  Calm s -> Calm s'.
Proof.
  intros H1 H2 H3 H4 H5 H6 H7 H8 [I B D].
  split; rewrite ?H1, ?H2, ?H3, ?H4, ?H5, ?H6, ?H7; auto.
  intros m Hm. destruct (H8 m Hm) as (m0 & Hm0 & ->). auto.
Qed.

Lemma Calm_flush s : Calm s -> Calm (flush s).
Proof.
  apply Calm_frame; rewrite flush_frame; try reflexivity.
  intros m Hm. eauto.
Qed.

Lemma Calm_handle s e s' :
  Calm s -> (is_stop e = true -> awaiting s = []) ->
  handle s e = Some s' -> Calm s'.
Proof.
  intros HC Hp H. destruct e; cbn [handle] in H; unfold guard in H.
  - (* start *)
    unfold rendered in H. destruct (isRecording s) eqn:R; [discriminate|].
    injection H as <-. destruct HC as [I B D].
    destruct (I R) as (Hr & Hrs & Hi & Ha).
    open_state s. cbn in *. subst.
    split; cbn; [discriminate| |exact D].
    intros _. left. repeat split. eauto.
  - (* getUserMedia *)
    destruct (nth_error (awaiting s) request) as [call|] eqn:N; [|discriminate].
    injection H as <-. destruct HC as [I B D].
    destruct (isRecording s) eqn:R.
    + destruct (B eq_refl) as [(Hr & Hrs & Hi & c & Ha & Hc)|(Ha & _)].
      2: { rewrite Ha in N. destruct request; discriminate. }
      rewrite Ha in N. destruct request as [|k]; [|destruct k; discriminate].
      injection N as <-.
      open_state s. cbn in *. subst.
      unfold startRecording_resumes. destruct granted; cbn.
      * split; cbn; [discriminate| |exact D].
        intros _. right. split; [reflexivity|]. eauto 10.
      * split; cbn; [auto|discriminate|exact D].
    + destruct (I eq_refl) as (_ & _ & _ & Ha). rewrite Ha in N.
      destruct request; discriminate.
  - (* stop *)
    unfold rendered in H. destruct (isRecording s) eqn:R; [|discriminate].
    specialize (Hp eq_refl). destruct HC as [I B D].
    destruct (B R) as [(_ & _ & _ & c & Ha & _)|(_ & mr & timer & st & Hm & Hr & Hrt & Ht & Hi)].
    { rewrite Hp in Ha. discriminate. }
    open_state s. cbn in *. subst.
    unfold is_recording, MediaRecorder.eqb_stream in H. cbn in H.
    rewrite Nat.eqb_refl in H. cbn in H. injection H as <-.
    unfold recorder_stopped, ondataavailable.
    destruct (0 <? blob_size data)%nat;
      unfold stopRecording, MediaRecorder_stop, onstop, newMemo,
        MediaRecorder.eqb_stream, clearInterval, audio_set; cbn;
      rewrite !Nat.eqb_refl; cbn.
    all: split; cbn; [auto|discriminate|].
    all: intros m [<-|Hm]; [exact Hrt|now apply D].
  - (* search *)
    destruct (rendered s SearchInput); [|discriminate]. injection H as <-.
    revert HC. apply Calm_frame; try reflexivity. eauto.
  - (* memo *)
    destruct (nth_error _ _); [|discriminate].
    destruct (_ && _); [|discriminate]. injection H as <-.
    revert HC. apply Calm_frame; try apply playMemo_books.
    unfold playMemo. destruct (id_is _ _); [destruct (isPlaying s)|]; cbn; eauto.
  - (* title *)
    destruct (rendered s TitleInput); [|discriminate]. injection H as <-.
    revert HC. unfold title_onChange. destruct (activeMemo s) as [a|]; [|auto].
    apply Calm_frame; try reflexivity.
    cbn. intros m Hm. apply in_map_iff in Hm. destruct Hm as (m0 & <- & Hm0).
    exists m0. split; [assumption|]. now destruct (_ =? _)%string.
  - (* scrub *)
    destruct (_ && _); [|discriminate]. injection H as <-.
    revert HC. apply Calm_frame; try reflexivity. eauto.
  - (* speed *)
    destruct (rendered s SpeedButton); [|discriminate]. injection H as <-.
    revert HC. unfold cycleSpeed. destruct (at_index _ _);
      apply Calm_frame; try reflexivity; eauto.
  - (* mode *)
    destruct (rendered s ModeButton); [|discriminate]. injection H as <-.
    revert HC. unfold togglePlaybackMode. destruct (at_index _ _);
      apply Calm_frame; try reflexivity; eauto.
  - (* rewind *)
    destruct (rendered s RewindButton); [|discriminate]. injection H as <-.
    revert HC. apply Calm_frame; try reflexivity. eauto.
  - (* forward *)
    destruct (rendered s ForwardButton); [|discriminate]. injection H as <-.
    revert HC. apply Calm_frame; try reflexivity. eauto.
  - (* play/pause *)
    destruct (_ && _); [|discriminate]. injection H as <-.
    revert HC. unfold playPause_onClick. destruct (isPlaying s);
      apply Calm_frame; try reflexivity; eauto.
  - (* delete *)
    destruct (activeMemo s) as [a|]; [|discriminate].
    destruct (rendered s DeleteButton); [|discriminate]. injection H as <-.
    revert HC. unfold deleteMemo. destruct (id_is _ _);
      apply Calm_frame; try reflexivity.
    all: cbn; intros m Hm; apply filter_In in Hm; exists m; tauto.
  - (* timer *)
    destruct (find _ _) as [[? startTime]|] eqn:F; [|discriminate]. injection H as <-.
    destruct HC as [I B D].
    destruct (isRecording s) eqn:R.
    + destruct (B eq_refl) as [(_ & _ & Hi & _)|K].
      { rewrite Hi in F. discriminate. }
      split; cbn; [rewrite R; discriminate| |exact D].
      intros _. right. exact K.
    + destruct (I eq_refl) as (_ & _ & Hi & _). rewrite Hi in F. discriminate.
  - (* timeupdate *)
    destruct (_ && _); [|discriminate]. injection H as <-.
    revert HC. apply Calm_frame; try reflexivity. eauto.
  - (* loadedmetadata *)
    destruct (match audio_duration with Some _ => _ | None => _ end); [|discriminate].
    injection H as <-.
    revert HC. apply Calm_frame; try reflexivity. eauto.
  - (* ended *)
    destruct (negb _); [|discriminate]. injection H as <-.
    revert HC. apply Calm_frame.
    1-7: etransitivity; [apply handlePlaybackEnded_books|reflexivity].
    intros m Hm. exists m. split; [|reflexivity].
    unfold handlePlaybackEnded in Hm.
    repeat match type of Hm with
           | context [if ?b then _ else _] => destruct b
           | context [match at_index ?l ?i with _ => _ end] => destruct (at_index l i)
           end;
      try exact Hm.
    all: unfold playMemo in Hm;
      destruct (id_is _ _); [destruct (isPlaying _)|]; exact Hm.
Qed.

Lemma Calm_run evs : forall s s',
  Calm s -> patient s evs = true -> run s evs = Some s' -> Calm s'.
Proof.
  induction evs as [|e evs IH]; cbn [run patient]; intros s s' HC Hp H.
  - now injection H as <-.
  - apply andb_true_iff in Hp. destruct Hp as [Hs Hp].
    destruct (step s e) as [s1|] eqn:E; [|discriminate].
    apply (IH s1 s'); [|exact Hp|exact H].
    unfold step in E. destruct (handle s e) as [s0|] eqn:E0; [|discriminate].
    injection E as <-. apply Calm_flush. eapply Calm_handle; eauto.
    intros St. rewrite St in Hs. cbn in Hs. unfold no_call_suspended in Hs.
    now destruct (awaiting s).
Qed.

(** ** Ranges *)

Lemma Ranges_initial : Ranges initial.
Proof.
  split; cbn; auto; try discriminate.
  split; discriminate.
Qed.

Lemma clamp_nonneg (x hi : Q) : 0 <= hi -> 0 <= Qmin (Qmax x 0) hi.
Proof. intros H. apply Q.min_glb; [apply Q.le_max_r|exact H]. Qed.

(** What the element's methods keep: the rate is the one it had or the
    default, the position is the one it had, one not negative that was
    assigned, or 0. *)
Lemma play_ranges o a :
  Audio.playbackRate (Audio.play o a) = Audio.playbackRate a
  /\ (0 <= Audio.currentTime a -> 0 <= Audio.currentTime (Audio.play o a)).
Proof.
  unfold Audio.play, Audio.start.
  destruct (Audio.error a); [auto|].
  destruct o; cbn; split; auto; destruct (Audio.ended a); auto; discriminate.
Qed.

Lemma set_currentTime_ranges v a :
  Audio.playbackRate (Audio.set_currentTime v a) = Audio.playbackRate a
  /\ Audio.currentTime (Audio.set_currentTime v a) = v.
Proof. unfold Audio.set_currentTime. destruct (Audio.readyState a); split; reflexivity. Qed.

Lemma Ranges_audio (f : Audio.t -> Audio.t) s :
  (Audio.playbackRate (f (audioRef s)) = Audio.playbackRate (audioRef s)
   \/ Audio.playbackRate (f (audioRef s)) = Audio.defaultPlaybackRate) ->
  0 <= Audio.currentTime (f (audioRef s)) ->
  Ranges s -> Ranges (audio_set f s).
Proof.
  intros Hr Hp [Ra Re Du [P1 P2]]. split; cbn; auto.
  destruct Hr as [->| ->]; auto.
Qed.

Lemma Ranges_frame s s' :
  playbackRate s' = playbackRate s -> audioRef s' = audioRef s ->
  duration s' = duration s -> playbackTime s' = playbackTime s ->
  Ranges s -> Ranges s'.
Proof.
  intros H1 H2 H3 H4 [Ra Re Du [P1 P2]].
  split; rewrite ?H1, ?H2, ?H3, ?H4; auto.
Qed.

Lemma playMemo_Ranges r o memo s :
  Ranges s -> Ranges (playMemo r o memo s).
Proof.
  intros HR. unfold playMemo.
  destruct (id_is _ _); [destruct (isPlaying r)|].
  - apply Ranges_audio; [now left|apply HR|exact HR].
  - apply Ranges_audio; [left; apply play_ranges|apply play_ranges, HR|exact HR].
  - destruct HR as [Ra Re Du [P1 P2]]. open_state s. cbn in *.
    unfold audio_set, Audio.play, Audio.start. cbn.
    destruct o; rng_fin.
Qed.

Lemma Ranges_dispatch evs : forall s, Ranges s -> Ranges (dispatch evs s).
Proof.
  induction evs as [|e evs IH]; intros s HR; [exact HR|].
  cbn. apply IH. destruct HR as [Ra Re Du [P1 P2]].
  destruct e; split; cbn; auto.
Qed.

Lemma Ranges_flush s : Ranges s -> Ranges (flush s).
Proof.
  intros HR. unfold flush. apply Ranges_dispatch.
  destruct HR as [Ra Re Du [P1 P2]]. split; cbn; auto.
Qed.

Lemma handlePlaybackEnded_Ranges r o s :
  Ranges s -> Ranges (handlePlaybackEnded r o s).
Proof.
  intros HR. unfold handlePlaybackEnded.
  repeat match goal with
         | |- context [if ?b then _ else _] => destruct b
         | |- context [match at_index ?l ?i with _ => _ end] => destruct (at_index l i)
         end;
    try (now apply playMemo_Ranges); try assumption.
  - apply Ranges_audio; [left; apply play_ranges|apply play_ranges| ].
    + cbn. rewrite (proj2 (set_currentTime_ranges _ _)). discriminate.
    + apply Ranges_audio; [left; apply set_currentTime_ranges| |exact HR].
      rewrite (proj2 (set_currentTime_ranges _ _)). discriminate.
  - revert HR. apply Ranges_frame; reflexivity.
Qed.

Lemma cycleSpeed_listed r s :
  In (playbackRate s) PLAYBACK_SPEEDS -> In (playbackRate (cycleSpeed r s)) PLAYBACK_SPEEDS.
Proof.
  intros H. unfold cycleSpeed.
  destruct (at_index _ _) as [next|] eqn:E; [|exact H].
  cbn [playbackRate setPlaybackRate]. eapply at_index_In; eauto.
Qed.

Lemma Ranges_handle s e s' : Ranges s -> handle s e = Some s' -> Ranges s'.
Proof.
  intros HR H. destruct e; cbn [handle] in H; unfold guard in H.
  - (* start *)
    destruct (rendered s StartButton); [|discriminate]. injection H as <-.
    destruct HR as [Ra Re Du [P1 P2]]. open_state s. cbn in *. rng_fin.
  - (* getUserMedia *)
    destruct (nth_error _ _); [|discriminate]. injection H as <-.
    revert HR. unfold startRecording_resumes. destruct granted;
      apply Ranges_frame; reflexivity.
  - (* stop *)
    unfold rendered in H. destruct (isRecording s) eqn:R; [|discriminate].
    assert (F : Ranges (stopRecording s s)).
    { revert HR. unfold stopRecording, clearInterval.
      destruct (mediaRecorderRef s); [|auto]. rewrite R. cbn.
      destruct (recordingTimerRef s); apply Ranges_frame; reflexivity. }
    destruct (mediaRecorderRef s) as [mr|] eqn:Mr; [|now injection H as <-].
    destruct (is_recording mr s) eqn:I; [|now injection H as <-].
    injection H as <-.
    unfold recorder_stopped, onstop.
    assert (G : Ranges (ondataavailable data (stopRecording s s))).
    { revert F. unfold ondataavailable. destruct (_ <? _)%nat; [|auto].
      apply Ranges_frame; reflexivity. }
    destruct G as [Ra Re Du [P1 P2]].
    split; cbn; auto. split; [exact P1|discriminate].
  - (* search *)
    destruct (rendered s SearchInput); [|discriminate]. injection H as <-.
    revert HR. apply Ranges_frame; reflexivity.
  - (* memo *)
    destruct (nth_error _ _); [|discriminate].
    destruct (_ && _); [|discriminate]. injection H as <-.
    now apply playMemo_Ranges.
  - (* title *)
    destruct (rendered s TitleInput); [|discriminate]. injection H as <-.
    unfold title_onChange. destruct (activeMemo s); [|assumption].
    revert HR. apply Ranges_frame; reflexivity.
  - (* scrub *)
    destruct (rendered s Scrubber); [|discriminate]. cbn in H.
    destruct (Qle_bool 0 value) eqn:V; [|discriminate]. cbn in H.
    destruct (Qle_bool value _); [|discriminate]. injection H as <-.
    apply Qle_bool_iff in V. unfold scrubber_onChange.
    assert (G : Ranges (audio_set (Audio.set_currentTime value) s)).
    { apply Ranges_audio; [left; apply set_currentTime_ranges| |exact HR].
      now rewrite (proj2 (set_currentTime_ranges _ _)). }
    destruct G as [Ra Re Du [P1 P2]]. split; cbn; auto.
  - (* speed *)
    destruct (rendered s SpeedButton); [|discriminate]. injection H as <-.
    pose proof (@cycleSpeed_listed s s (rng_rate HR)) as L.
    unfold cycleSpeed in *. destruct (at_index _ _).
    all: destruct HR as [Ra Re Du [P1 P2]]; open_state s; cbn in *; rng_fin.
  - (* mode *)
    destruct (rendered s ModeButton); [|discriminate]. injection H as <-.
    unfold togglePlaybackMode. destruct (at_index _ _); [|assumption].
    revert HR. apply Ranges_frame; reflexivity.
  - (* rewind *)
    destruct (rendered s RewindButton); [|discriminate]. injection H as <-.
    apply Ranges_audio; [left; apply set_currentTime_ranges| |exact HR].
    rewrite (proj2 (set_currentTime_ranges _ _)). apply clamp_nonneg, HR.
  - (* forward *)
    destruct (rendered s ForwardButton); [|discriminate]. injection H as <-.
    apply Ranges_audio; [left; apply set_currentTime_ranges| |exact HR].
    rewrite (proj2 (set_currentTime_ranges _ _)). apply clamp_nonneg, HR.
  - (* play/pause *)
    destruct (_ && _); [|discriminate]. injection H as <-.
    unfold playPause_onClick. destruct (isPlaying s).
    + apply Ranges_audio; [now left|apply HR|exact HR].
    + apply Ranges_audio; [left; apply play_ranges|apply play_ranges, HR|exact HR].
  - (* delete *)
    destruct (activeMemo s) as [a|]; [|discriminate].
    destruct (rendered s DeleteButton); [|discriminate]. injection H as <-.
    destruct HR as [Ra Re Du [P1 P2]]. open_state s. cbn in *.
    unfold deleteMemo, audio_set. cbn. destruct (id_is _ _); rng_fin.
  - (* timer *)
    destruct (find _ _) as [[? st]|]; [|discriminate]. injection H as <-.
    revert HR. apply Ranges_frame; reflexivity.
  - (* timeupdate *)
    destruct (negb _); [|discriminate]. cbn in H.
    destruct (Qle_bool 0 position) eqn:V; [|discriminate]. injection H as <-.
    apply Qle_bool_iff in V.
    destruct HR as [Ra Re Du [P1 P2]]. open_state s. rng_fin.
  - (* loadedmetadata *)
    assert (G : Ranges (audio_set Audio.metadata_loaded s)).
    { apply Ranges_audio; [left| |exact HR];
        unfold Audio.metadata_loaded; destruct (Audio.readyState _); try reflexivity;
        apply HR. }
    destruct audio_duration as [d|].
    + destruct (Qle_bool 0 d) eqn:V; [|discriminate]. injection H as <-.
      apply Qle_bool_iff in V.
      destruct G as [Ra Re Du [P1 P2]]. split; cbn; auto.
    + injection H as <-.
      destruct G as [Ra Re Du [P1 P2]]. split; cbn; auto. discriminate.
  - (* ended *)
    destruct (negb _); [|discriminate]. injection H as <-.
    apply handlePlaybackEnded_Ranges.
    destruct HR as [Ra Re Du [P1 P2]]. open_state s. rng_fin.
Qed.

Lemma Ranges_run evs : forall s s', Ranges s -> run s evs = Some s' -> Ranges s'.
Proof.
  induction evs as [|e evs IH]; cbn; intros s s' HR H.
  - now injection H as <-.
  - unfold step in H. destruct (handle s e) as [s1|] eqn:E; [|discriminate].
    cbn in H. eapply IH; [|exact H]. apply Ranges_flush. eapply Ranges_handle; eauto.
Qed.

Lemma reachable_Ranges s : reachable s -> Ranges s.
Proof. intros [evs H]. eapply Ranges_run; [apply Ranges_initial|eassumption]. Qed.

(** ** Deleting a memo (claims C2, C10) *)

(** In every reachable state [activeMemoId], when set, is the id of a memo
    of the store. *)
Lemma active_memo_in_store (s : App) (a : string) :
  reachable s -> activeMemoId s = Some a ->
  exists m, In m (memos s) /\ Memo.id m = a.
Proof. intros HR. apply (inv_active (reachable_Inv HR)). Qed.

Lemma active_memo_in_store_witness :
  exists s m, run initial recorded_twice = Some s
    /\ activeMemoId s = Some "9000" /\ In m (memos s) /\ Memo.id m = "9000".
Proof.
  destruct (run initial recorded_twice) as [s|] eqn:E; [|discriminate E].
  assert (A : activeMemoId s = Some "9000").
  { vm_compute in E. injection E as <-. reflexivity. }
  destruct (@active_memo_in_store s "9000" (ex_intro _ _ E) A) as (m & Hm & Hi).
  exists s, m. repeat split; assumption.
Defined.

(** [deleteMemo] of the active memo: [activeMemoId] becomes [null], the
    memos with that id leave the store and the element ends paused, its
    source empty and no event queued; [isPlaying] is as before. *)
Lemma delete_active (s : App) (id : string) :
  activeMemoId s = Some id ->
  let s' := flush (deleteMemo s id s) in
  activeMemoId s' = None
  /\ (forall m, In m (memos s') -> Memo.id m <> id)
  /\ Audio.paused (audioRef s') = true
  /\ Audio.src (audioRef s') = ""
  /\ isPlaying s' = isPlaying s.
Proof.
  intros Ha. cbn zeta. unfold deleteMemo. rewrite Ha. cbn [id_is].
  rewrite String.eqb_refl.
  open_state s.
  unfold flush, audio_set, Audio.set_src, Audio.load, Audio.has_metadata. cbn.
  destruct rs; cbn;
    repeat match goal with |- context [if ?b then _ else _] => destruct b end;
    cbn; repeat split.
  all: intros m Hm; apply filter_In in Hm; destruct Hm as [_ Hn];
    now apply negb_true_iff, String.eqb_neq in Hn.
Qed.

Lemma delete_active_witness :
  exists s, run initial recorded_once = Some s
    /\ activeMemoId s = Some "5000" /\ isPlaying s = false
    /\ activeMemoId (flush (deleteMemo s "5000" s)) = None
    /\ isPlaying (flush (deleteMemo s "5000" s)) = false.
Proof.
  destruct (run initial recorded_once) as [s|] eqn:E; [|discriminate E].
  assert (A : activeMemoId s = Some "5000").
  { vm_compute in E. injection E as <-. reflexivity. }
  assert (P : isPlaying s = false).
  { vm_compute in E. injection E as <-. reflexivity. }
  destruct (@delete_active s "5000" A) as (H1 & _ & _ & _ & H2).
  exists s. repeat split; try assumption. now rewrite H2.
Defined.

(** C2 at a concrete run: one memo, recorded and playing, is deleted.
    [activeMemoId] is cleared, the store is empty and the element is paused,
    but [pause()] only queued its [pause] event and the assignment to [src]
    that follows discarded it: [isPlaying] is still [true]. *)
Theorem delete_while_playing :
  exists s s',
    run initial playing_first = Some s
    /\ activeMemoId s = Some "5000" /\ isPlaying s = true
    /\ step s Click_delete = Some s'
    /\ memos s' = [] /\ activeMemoId s' = None
    /\ Audio.paused (audioRef s') = true
    /\ isPlaying s' = true.
Proof.
  eexists. eexists. split; [vm_compute; reflexivity|].
  do 2 (split; [reflexivity|]).
  split; [vm_compute; reflexivity|].
  repeat split.
Qed.

(** C10.  [deleteMemo] of an id other than the active one only filters the
    store: the memos with that id go, every other memo stays, in the order
    it had, and [activeMemoId], [isPlaying], the audio element (source,
    position) and the reported position are as before; no event of the
    element follows. *)
Theorem delete_other_frame (s : App) (id : string) :
  activeMemoId s <> Some id ->
  let s' := deleteMemo s id s in
  s' = setMemos (filter (fun m => negb (Memo.id m =? id)%string) (memos s)) s
  /\ (forall m, In m (memos s') <-> In m (memos s) /\ Memo.id m <> id)
  /\ activeMemoId s' = activeMemoId s
  /\ isPlaying s' = isPlaying s
  /\ audioRef s' = audioRef s
  /\ playbackTime s' = playbackTime s
  /\ (Audio.pending (audioRef s) = [] -> flush s' = s').
Proof.
  intros Hne. cbn zeta. unfold deleteMemo.
  assert (E : id_is (activeMemoId s) id = false).
  { destruct (activeMemoId s) as [a|]; cbn; [|reflexivity].
    apply String.eqb_neq. congruence. }
  rewrite E. repeat split; try reflexivity.
  - cbn in H. now apply filter_In in H.
  - cbn in H. apply filter_In in H. destruct H as [_ H].
    now apply negb_true_iff, String.eqb_neq in H.
  - intros [Hm Hn]. cbn. apply filter_In. split; [assumption|].
    now apply negb_true_iff, String.eqb_neq.
  - intros Hp. now apply flush_idle.
Qed.

Lemma delete_other_frame_witness :
  exists s, run initial recorded_twice = Some s
    /\ map Memo.id (memos s) = ["9000"; "5000"]
    /\ map Memo.id (memos (deleteMemo s "5000" s)) = ["9000"]
    /\ activeMemoId (deleteMemo s "5000" s) = Some "9000"
    /\ audioRef (deleteMemo s "5000" s) = audioRef s.
Proof.
  destruct (run initial recorded_twice) as [s|] eqn:E; [|discriminate E].
  exists s. split; [reflexivity|].
  assert (A : activeMemoId s = Some "9000").
  { vm_compute in E. injection E as <-. reflexivity. }
  assert (N : activeMemoId s <> Some "5000").
  { rewrite A. discriminate. }
  destruct (@delete_other_frame s "5000" N) as (H0 & _ & H1 & _ & H2 & _).
  repeat split.
  - vm_compute in E. injection E as <-. reflexivity.
  - rewrite H0. vm_compute in E. injection E as <-. reflexivity.
  - rewrite H1. exact A.
  - exact H2.
Defined.

(** ** Seeking (claim C7) *)

(** C7, as the code has it.  [skipTime] moves the element to the current
    position plus the delta, clamped to [0, duration]: the new position is
    within the interval whatever the delta, and the element ends as the
    scrubber would leave it when given the clamped value.  The scrubber's
    handler does not clamp: it stores the value of the range input, which
    lies between 0 and [duration || 100], so within [0, duration] when
    [duration] is not 0 and within [0, 100] when it is. *)
Theorem seek_within (s : App) (delta value : Q) :
  0 <= duration s ->
  let p := Audio.currentTime (audioRef s) in
  let clamped := Qmin (Qmax (p + delta) 0) (duration s) in
  Audio.currentTime (audioRef (skipTime s delta s)) = clamped
  /\ 0 <= clamped <= duration s
  /\ audioRef (skipTime s delta s) = audioRef (scrubber_onChange clamped s)
  /\ (0 <= value <= scrubber_max s ->
      playbackTime (scrubber_onChange value s) = value
      /\ Audio.currentTime (audioRef (scrubber_onChange value s)) = value
      /\ (~ duration s == 0 -> 0 <= value <= duration s)
      /\ (duration s == 0 -> 0 <= value <= 100)).
Proof.
  intros Hd. cbn zeta. repeat split; try reflexivity.
  - apply set_currentTime_ranges.
  - apply Q.min_glb; [apply Q.le_max_r|exact Hd].
  - apply Q.le_min_r.
  - apply set_currentTime_ranges.
  - apply H.
  - destruct H as [_ H]. unfold scrubber_max in H.
    destruct (Qeq_bool (duration s) 0) eqn:E; [|exact H].
    apply Qeq_bool_iff in E. contradiction.
  - apply H.
  - destruct H as [_ H]. unfold scrubber_max in H.
    destruct (Qeq_bool (duration s) 0) eqn:E; [exact H|].
    apply Qeq_bool_neq in E. contradiction.
Qed.

Lemma seek_within_witness :
  exists s,
    run initial (recorded_once ++ [Audio_loadedmetadata (Some 20)])%list = Some s
    /\ Audio.currentTime (audioRef (skipTime s 15 s)) == 15
    /\ Audio.currentTime (audioRef (skipTime s (-15) s)) == 0
    /\ Audio.currentTime (audioRef (skipTime s 30 s)) == 20.
Proof.
  destruct (run initial (recorded_once ++ [Audio_loadedmetadata (Some 20)])%list)
    as [s|] eqn:E; [|discriminate E].
  exists s. split; [reflexivity|].
  assert (D : duration s = 20).
  { vm_compute in E. injection E as <-. reflexivity. }
  assert (P : Audio.currentTime (audioRef s) = 0).
  { vm_compute in E. injection E as <-. reflexivity. }
  assert (Hd : 0 <= duration s) by (rewrite D; discriminate).
  destruct (@seek_within s 15 0 Hd) as (H1 & _).
  destruct (@seek_within s (-15) 0 Hd) as (H2 & _).
  destruct (@seek_within s 30 0 Hd) as (H3 & _).
  rewrite H1, H2, H3, D, P. repeat split; reflexivity.
Defined.

(** The scrubber of a memo whose duration is not yet known ([duration] 0)
    runs from 0 to 100: choosing 50 puts the position at 50, past
    [duration]. *)
Lemma scrub_leaves_range :
  exists s s',
    run initial recorded_once = Some s
    /\ 0 <= playbackTime s <= duration s
    /\ step s (Scrub 50) = Some s'
    /\ duration s' == 0
    /\ playbackTime s' == 50
    /\ ~ playbackTime s' <= duration s'.
Proof.
  destruct (run initial recorded_once) as [s|] eqn:E; [|discriminate E].
  vm_compute in E. injection E as <-.
  eexists. eexists. split; [reflexivity|].
  split; [split; discriminate|].
  split; [vm_compute; reflexivity|].
  repeat split. intros H. apply H. reflexivity.
Qed.

(** ** Selecting a memo (claims C8, C6) *)

Lemma select_other_unfold (s : App) (memo : Memo.t) (o : Audio.PlayOutcome) :
  activeMemoId s <> Some (Memo.id memo) ->
  playMemo s o memo s =
  audio_set (Audio.play o)
    (audio_set Audio.load
       (audio_set (Audio.set_src (Memo.url memo))
          (setActiveMemoId (Some (Memo.id memo)) s))).
Proof.
  intros Hne. unfold playMemo.
  assert (E : id_is (activeMemoId s) (Memo.id memo) = false).
  { destruct (activeMemoId s) as [a|]; cbn; [|reflexivity].
    apply String.eqb_neq. congruence. }
  now rewrite E.
Qed.

(** C8, as the code has it.  Selecting a memo other than the active one
    whose playback then fails: [activeMemoId] is the selected id, the element
    holds the memo's source, and nothing else of the state changes but
    [isPlaying], which follows the element's [play] event.  The element
    queues it when it accepts [play()], so after a source that fails to load
    [isPlaying] is [true]; it keeps its value when [play()] is refused at
    once. *)
Theorem select_other_failure (s : App) (memo : Memo.t) (o : Audio.PlayOutcome) :
  activeMemoId s <> Some (Memo.id memo) ->
  o <> Audio.Plays ->
  let s' := flush (playMemo s o memo s) in
  activeMemoId s' = Some (Memo.id memo)
  /\ Audio.src (audioRef s') = Memo.url memo
  /\ isPlaying s' = match o with Audio.NotAllowed => isPlaying s | _ => true end
  /\ Audio.paused (audioRef s') = match o with Audio.NotAllowed => true | _ => false end
  /\ s' = set_audioRef (audioRef s')
           (setIsPlaying (isPlaying s')
              (setActiveMemoId (Some (Memo.id memo)) s)).
Proof.
  intros Hne Ho. cbn zeta. rewrite (@select_other_unfold s memo o Hne).
  open_state s.
  destruct o; [congruence| |]; cbn; repeat split.
Qed.

Lemma select_other_failure_witness :
  exists s first,
    run initial recorded_twice = Some s
    /\ nth_error (memos s) 1 = Some first
    /\ activeMemoId (flush (playMemo s Audio.NotAllowed first s)) = Some "5000"
    /\ isPlaying (flush (playMemo s Audio.NotAllowed first s)) = false.
Proof.
  destruct (run initial recorded_twice) as [s|] eqn:E; [|discriminate E].
  destruct (nth_error (memos s) 1) as [first|] eqn:F;
    [|vm_compute in E; injection E as <-; discriminate F].
  exists s, first. split; [reflexivity|]. split; [exact F|].
  assert (A : activeMemoId s = Some "9000").
  { vm_compute in E. injection E as <-. reflexivity. }
  assert (P : isPlaying s = false).
  { vm_compute in E. injection E as <-. reflexivity. }
  assert (I : Memo.id first = "5000").
  { vm_compute in E. injection E as <-. cbn in F. injection F as <-. reflexivity. }
  assert (N : activeMemoId s <> Some (Memo.id first)).
  { rewrite A, I. discriminate. }
  assert (O : Audio.NotAllowed <> Audio.Plays) by discriminate.
  destruct (@select_other_failure s first Audio.NotAllowed N O) as (H1 & _ & H2 & _).
  split; [rewrite H1, I; reflexivity|]. rewrite H2. exact P.
Defined.

(** With nothing playing, the second memo active and the first memo's source
    undecodable, a click on the first memo leaves [isPlaying] true. *)
Lemma select_failure_sets_isPlaying :
  exists s s',
    run initial recorded_twice = Some s
    /\ activeMemoId s = Some "9000" /\ isPlaying s = false
    /\ step s (Click_memo 1 Audio.FailsToLoad) = Some s'
    /\ activeMemoId s' = Some "5000"
    /\ isPlaying s' = true.
Proof.
  eexists. eexists. split; [vm_compute; reflexivity|].
  split; [reflexivity|]. split; [reflexivity|].
  split; [vm_compute; reflexivity|].
  split; reflexivity.
Qed.

(** ** Ids of the store (claim C4) *)

Lemma toString_inj (a b : Z) : toString a = toString b -> a = b.
Proof.
  unfold toString. intros H.
  assert (N : forall z, Z.to_int z <> Decimal.Pos Decimal.Nil
                        /\ Z.to_int z <> Decimal.Neg Decimal.Nil).
  { intros [|p|p]; cbn; split; try discriminate;
      intros E; injection E as E; now apply DecimalPos.Unsigned.to_uint_nonnil in E. }
  apply DecimalZ.to_int_inj.
  assert (Ha := @NilZero.isi (Z.to_int a) (proj1 (N a)) (proj2 (N a))).
  assert (Hb := @NilZero.isi (Z.to_int b) (proj1 (N b)) (proj2 (N b))).
  rewrite H in Ha. congruence.
Qed.

Lemma audio_set_memos f s : memos (audio_set f s) = memos s.
Proof. reflexivity. Qed.

Lemma playMemo_memos r o memo s : memos (playMemo r o memo s) = memos s.
Proof.
  unfold playMemo.
  destruct (id_is _ _); [destruct (isPlaying r)|]; reflexivity.
Qed.

Lemma handlePlaybackEnded_memos r o s : memos (handlePlaybackEnded r o s) = memos s.
Proof.
  unfold handlePlaybackEnded.
  repeat match goal with
         | |- context [if ?b then _ else _] => destruct b
         | |- context [match at_index ?l ?i with _ => _ end] => destruct (at_index l i)
         end;
    rewrite ?playMemo_memos; reflexivity.
Qed.

Lemma ondataavailable_memos data s : memos (ondataavailable data s) = memos s.
Proof. unfold ondataavailable. now destruct (_ <? _)%nat. Qed.

Lemma onstop_memos rec now1 now2 objectURL s :
  memos (onstop rec now1 now2 objectURL s)
  = newMemo rec now1 now2 objectURL s :: memos s.
Proof. reflexivity. Qed.

Lemma stopRecording_memos r s : memos (stopRecording r s) = memos s.
Proof.
  unfold stopRecording, clearInterval.
  destruct (mediaRecorderRef s), (isRecording r); try reflexivity.
  cbn. now destruct (recordingTimerRef s).
Qed.

Lemma deleteMemo_memos r id s :
  memos (deleteMemo r id s)
  = filter (fun m => negb (Memo.id m =? id)%string) (memos s).
Proof.
  unfold deleteMemo. now destruct (id_is _ _).
Qed.

(** How one event changes the store: not at all, by one memo put in front
    whose id is the clock reading of the event, by a filter, or by a map
    that keeps the ids. *)
Lemma handle_store s e s' :
  handle s e = Some s' ->
  (memos s' = memos s /\ id_clock s e = [])
  \/ (exists now1 m,
        id_clock s e = [now1]
        /\ memos s' = m :: memos s /\ Memo.id m = toString now1)
  \/ (id_clock s e = [] /\ exists p, memos s' = filter p (memos s))
  \/ (id_clock s e = []
      /\ exists f, (forall m, Memo.id (f m) = Memo.id m) /\ memos s' = map f (memos s)).
Proof.
  intros H. destruct e; cbn [handle] in H; unfold guard in H; cbn [id_clock].
  3: { (* stop *)
    destruct (rendered s StopButton); [|discriminate].
    pose proof (stopRecording_memos s s) as F.
    destruct (mediaRecorderRef s) as [rec|]; [|injection H as <-; now left].
    destruct (is_recording rec s); [|injection H as <-; now left].
    injection H as <-. right. left.
    exists now1. eexists. split; [reflexivity|].
    unfold recorder_stopped. rewrite onstop_memos, ondataavailable_memos, F.
    split; reflexivity. }
  5: { (* title *)
    destruct (rendered s TitleInput); [|discriminate]. injection H as <-.
    unfold title_onChange. destruct (activeMemo s) as [active|]; [|now left].
    right. right. right. split; [reflexivity|]. eexists. split; [|reflexivity].
    intros m. cbn. now destruct (_ =? _)%string. }
  11: { (* delete *)
    destruct (activeMemo s) as [active|]; [|discriminate].
    destruct (rendered s DeleteButton); [|discriminate]. injection H as <-.
    right. right. left. split; [reflexivity|]. eexists. apply deleteMemo_memos. }
  all: left; split; [|reflexivity].
  all: repeat match type of H with
           | (if ?b then _ else _) = Some _ => destruct b eqn:?; [|discriminate H]
           | match ?o with Some _ => _ | None => _ end = Some _ =>
               destruct o eqn:?; [|discriminate H]
           | (let (_, _) := ?p in _) = Some _ => destruct p
           end.
  all: injection H as <-.
  all: try reflexivity.
  - unfold startRecording_resumes. now destruct granted.
  - apply playMemo_memos.
  - unfold cycleSpeed. now destruct (at_index _ _).
  - unfold togglePlaybackMode. now destruct (at_index _ _).
  - unfold playPause_onClick. now destruct (isPlaying s).
  - now rewrite handlePlaybackEnded_memos.
Qed.

Lemma step_store s e s' :
  step s e = Some s' ->
  (memos s' = memos s /\ id_clock s e = [])
  \/ (exists now1 m,
        id_clock s e = [now1]
        /\ memos s' = m :: memos s /\ Memo.id m = toString now1)
  \/ (id_clock s e = [] /\ exists p, memos s' = filter p (memos s))
  \/ (id_clock s e = []
      /\ exists f, (forall m, Memo.id (f m) = Memo.id m) /\ memos s' = map f (memos s)).
Proof.
  unfold step. intros H.
  destruct (handle s e) as [s1|] eqn:E; [|discriminate]. injection H as <-.
  rewrite flush_memos. now apply handle_store.
Qed.

(** A filter of the store adds no id and keeps the ids distinct. *)
Lemma filter_ids_incl (keep : Memo.t -> bool) (store : list Memo.t) (i : string) :
  In i (map Memo.id (filter keep store)) -> In i (map Memo.id store).
Proof.
  rewrite !in_map_iff. intros (m & Hi & Hm).
  exists m. split; [exact Hi|]. apply filter_In in Hm. tauto.
Qed.

Lemma filter_ids_unique (keep : Memo.t -> bool) (store : list Memo.t) :
  NoDup (map Memo.id store) -> NoDup (map Memo.id (filter keep store)).
Proof.
  induction store as [|m store IH]; cbn; [trivial|].
  rewrite NoDup_cons_iff. intros [Hfresh Hrest].
  destruct (keep m); cbn; [|now apply IH].
  apply NoDup_cons; [|now apply IH].
  intros Hin. apply Hfresh. eapply filter_ids_incl. exact Hin.
Qed.

Lemma run_ids evs : forall s s',
  run s evs = Some s' ->
  NoDup (ids s) -> NoDup (id_clocks s evs) ->
  (forall c, In c (id_clocks s evs) -> ~ In (toString c) (ids s)) ->
  NoDup (ids s').
Proof.
  induction evs as [|e evs IH]; cbn [run]; intros s s' H Hs Hc Hd.
  - now injection H as <-.
  - cbn [id_clocks] in Hc, Hd.
    destruct (step s e) as [s1|] eqn:E; [|discriminate].
    apply NoDup_app_remove_l in Hc as Hc'.
    assert (Hd' : forall c, In c (id_clocks s1 evs) -> ~ In (toString c) (ids s)).
    { intros c Hin. apply Hd, in_or_app. now right. }
    apply (IH s1 s' H); [|exact Hc'|]; unfold ids in *.
    + destruct (step_store _ _ E)
        as [[M K]|[(now1 & m & K & M & Hm)|[[K [p M]]|[K (f & Hf & M)]]]];
        rewrite M.
      * exact Hs.
      * cbn [map]. rewrite Hm. constructor; [|exact Hs]. apply Hd.
        rewrite K. now left.
      * now apply filter_ids_unique.
      * rewrite map_map. erewrite map_ext; [exact Hs|exact Hf].
    + intros c Hin.
      destruct (step_store _ _ E)
        as [[M K]|[(now1 & m & K & M & Hm)|[[K [p M]]|[K (f & Hf & M)]]]];
        rewrite M.
      * now apply Hd'.
      * cbn [map]. rewrite Hm. intros [Heq|Hin']; [|now apply (Hd' c)].
        apply toString_inj in Heq. subst c.
        rewrite K in Hc. cbn in Hc. inversion Hc; contradiction.
      * intros Hin'. apply (Hd' c Hin). eapply filter_ids_incl; eauto.
      * rewrite map_map. erewrite map_ext; [now apply Hd'|exact Hf].
Qed.

(** C4, as the code has it.  A memo's id is the clock reading taken when its
    recording is finalized, and nothing checks it against the store: when
    the readings of the finalizations are pairwise distinct, no two memos of
    the store share an id, whatever was recorded and deleted. *)
Theorem ids_unique (evs : list Event) (s : App) :
  run initial evs = Some s ->
  NoDup (id_clocks initial evs) ->
  NoDup (map Memo.id (memos s)).
Proof.
  intros H Hc. apply (@run_ids evs initial s H); [constructor|exact Hc|].
  intros c _ [].
Qed.

Lemma ids_unique_witness :
  exists s, run initial recorded_twice = Some s
    /\ map Memo.id (memos s) = ["9000"; "5000"]
    /\ NoDup (map Memo.id (memos s)).
Proof.
  destruct (run initial recorded_twice) as [s|] eqn:E; [|discriminate E].
  exists s. split; [reflexivity|].
  split; [vm_compute in E; injection E as <-; reflexivity|].
  apply (@ids_unique recorded_twice s E).
  replace (id_clocks initial recorded_twice) with [5000%Z; 9000%Z]
    by (vm_compute; reflexivity).
  constructor; [intros [H|[]]; discriminate H|].
  constructor; [intros []|constructor].
Defined.

(** Two finalizations that read the same clock value (the clock was set
    back in between) give two memos with one id. *)
Lemma same_clock_same_id :
  exists s,
    run initial (recorded_once
                 ++ [Click_start; GetUserMedia_settles 0 true 4000;
                     Click_stop "de" 5000 5001 "blob:2"])%list
    = Some s
    /\ map Memo.id (memos s) = ["5000"; "5000"]
    /\ ~ NoDup (map Memo.id (memos s)).
Proof.
  eexists. split; [vm_compute; reflexivity|]. split; [reflexivity|].
  cbn. intros H. inversion H as [|? ? Hn _]. apply Hn. now left.
Qed.

(** ** Search (claim C9) *)

Lemma prefix_spec (p s : string) :
  String.prefix p s = true <-> exists rest, s = p ++ rest.
Proof.
  revert s. induction p as [|c p IH]; intros s.
  - destruct s; cbn; split; eauto.
  - destruct s as [|d s]; cbn.
    + split; [discriminate|]. intros [rest H]. discriminate.
    + destruct (Ascii.ascii_dec c d) as [->|Hcd].
      * rewrite IH. split; intros [rest H]; exists rest; [now rewrite H|].
        now injection H.
      * split; [discriminate|]. intros [rest H]. injection H as H1 H2. congruence.
Qed.

Lemma includes_spec (s q : string) :
  includes s q = true <-> exists before after, s = before ++ q ++ after.
Proof.
  induction s as [|c s IH]; cbn [includes].
  - rewrite orb_false_r, prefix_spec. split.
    + intros [rest H]. exists "", rest. exact H.
    + intros (before & after & H). destruct before; [eauto|discriminate].
  - rewrite orb_true_iff, prefix_spec, IH. split.
    + intros [[rest H]|(before & after & H)].
      * exists "", rest. exact H.
      * exists (String c before), after. cbn. now rewrite H.
    + intros (before & after & H). destruct before as [|d before]; cbn in H.
      * left. eauto.
      * right. injection H as _ H. eauto.
Qed.

(** *** Bytes and characters *)

Lemma byte_range (a : ascii) : (0 <= Unicode.byte a < 256)%Z.
Proof.
  unfold Unicode.byte. pose proof (N_ascii_bounded a). lia.
Qed.

Lemma chr_byte (a : ascii) : Unicode.chr (Unicode.byte a) = a.
Proof.
  unfold Unicode.chr, Unicode.byte. rewrite N2Z.id. apply ascii_N_embedding.
Qed.

Lemma byte_chr (z : Z) : (0 <= z < 256)%Z -> Unicode.byte (Unicode.chr z) = z.
Proof.
  intros H. unfold Unicode.chr, Unicode.byte.
  rewrite N_ascii_embedding by lia. lia.
Qed.

Lemma byte_nat (a : ascii) : Unicode.byte a = Z.of_nat (nat_of_ascii a).
Proof. unfold Unicode.byte, nat_of_ascii. now rewrite N_nat_Z. Qed.

Lemma byte_small (a : ascii) :
  Unicode.byte (small a)
  = (if ((65 <=? Unicode.byte a) && (Unicode.byte a <=? 90))%Z
     then Unicode.byte a + 32 else Unicode.byte a)%Z.
Proof.
  unfold small. pose proof (byte_range a).
  destruct ((65 <=? Unicode.byte a) && (Unicode.byte a <=? 90))%Z eqn:E;
    [|reflexivity].
  apply andb_true_iff in E. destruct E as [E1 E2].
  apply Z.leb_le in E1, E2. apply byte_chr. lia.
Qed.

(** Two characters have the same small letter exactly when they are the
    same letter, case apart. *)
Lemma small_same_letter (a b : ascii) : small a = small b <-> same_letter a b.
Proof.
  assert (Inj : forall x y, Unicode.byte x = Unicode.byte y -> x = y).
  { intros x y H. rewrite <- (chr_byte x), <- (chr_byte y). now rewrite H. }
  unfold same_letter.
  assert (Na := byte_nat a). assert (Nb := byte_nat b).
  split.
  - intros H. apply (f_equal Unicode.byte) in H. rewrite !byte_small in H.
    destruct ((65 <=? Unicode.byte a) && (Unicode.byte a <=? 90))%Z eqn:Ea;
      destruct ((65 <=? Unicode.byte b) && (Unicode.byte b <=? 90))%Z eqn:Eb.
    + left. apply Inj. lia.
    + right. left.
      apply andb_true_iff in Ea. destruct Ea as [E1 E2]. apply Z.leb_le in E1, E2. lia.
    + right. right.
      apply andb_true_iff in Eb. destruct Eb as [E1 E2]. apply Z.leb_le in E1, E2. lia.
    + left. now apply Inj.
  - intros [->|[[Ha Hb]|[Hb Ha]]]; [reflexivity| |];
      apply Inj; rewrite !byte_small.
    + replace ((65 <=? Unicode.byte a) && (Unicode.byte a <=? 90))%Z with true
        by (symmetry; apply andb_true_iff; split; apply Z.leb_le; lia).
      replace ((65 <=? Unicode.byte b) && (Unicode.byte b <=? 90))%Z with false
        by (symmetry; apply andb_false_iff; right; apply Z.leb_gt; lia).
      lia.
    + replace ((65 <=? Unicode.byte b) && (Unicode.byte b <=? 90))%Z with true
        by (symmetry; apply andb_true_iff; split; apply Z.leb_le; lia).
      replace ((65 <=? Unicode.byte a) && (Unicode.byte a <=? 90))%Z with false
        by (symmetry; apply andb_false_iff; right; apply Z.leb_gt; lia).
      lia.
Qed.

Lemma small_text_same (s t : string) : small_text s = small_text t <-> same_text s t.
Proof.
  revert t. induction s as [|a s IH]; intros [|b t]; cbn.
  - split; [constructor|reflexivity].
  - split; [discriminate|]. intros H. inversion H.
  - split; [discriminate|]. intros H. inversion H.
  - split.
    + intros [= Hc Hs]. constructor; [now apply small_same_letter|now apply IH].
    + intros H. inversion H; subst. f_equal; [now apply small_same_letter|now apply IH].
Qed.

Lemma small_text_app (a b : string) :
  small_text (a ++ b) = small_text a ++ small_text b.
Proof. induction a; cbn; congruence. Qed.

(** A string whose small letters split in two splits the same way. *)
Lemma small_text_split (s x y : string) :
  small_text s = x ++ y ->
  exists a b, s = a ++ b /\ small_text a = x /\ small_text b = y.
Proof.
  revert s. induction x as [|c x IH]; intros s H.
  - exists "", s. auto.
  - destruct s as [|d s]; [discriminate|]. cbn in H. injection H as Hc H.
    destruct (IH s H) as (a & b & -> & <- & <-).
    exists (String d a), b. cbn. now rewrite Hc.
Qed.

(** *** [toLowerCase] on ASCII text *)

Lemma lowercase_of_ascii (c : Z) :
  (0 <= c < 128)%Z ->
  (c =? 931)%Z = false /\ (c =? 304)%Z = false
  /\ Unicode.simple_lowercase c
     = (if ((65 <=? c) && (c <=? 90))%Z then c + 32 else c)%Z.
Proof.
  intros H.
  assert (T : forallb (fun n =>
                let c := Z.of_nat n in
                (Unicode.simple_lowercase c
                 =? (if ((65 <=? c) && (c <=? 90)) then c + 32 else c))%Z)
              (seq 0 128) = true) by (vm_compute; reflexivity).
  rewrite forallb_forall in T.
  specialize (T (Z.to_nat c)). rewrite Z2Nat.id in T by lia.
  split; [apply Z.eqb_neq; lia|]. split; [apply Z.eqb_neq; lia|].
  apply Z.eqb_eq, T. apply in_seq. lia.
Qed.

Lemma toLower_ascii (l : list Z) : forall before,
  Forall (fun c => 0 <= c < 128)%Z l ->
  Unicode.toLower before l
  = map (fun c => if ((65 <=? c) && (c <=? 90))%Z then c + 32 else c)%Z l.
Proof.
  induction l as [|c l IH]; intros before H; [reflexivity|].
  inversion H as [|? ? Hc Hl]; subst. cbn [Unicode.toLower map].
  destruct (lowercase_of_ascii Hc) as (-> & -> & ->).
  cbn [app]. now rewrite IH.
Qed.

Lemma toLowerCase_ascii (s : string) :
  ascii_only s = true -> toLowerCase s = small_text s.
Proof.
  intros H. unfold toLowerCase.
  assert (D : Unicode.decode s = map Unicode.byte (list_ascii_of_string s)
              /\ Forall (fun c => 0 <= c < 128)%Z (Unicode.decode s)).
  { induction s as [|a s IH]; [split; [reflexivity|constructor]|].
    cbn [ascii_only] in H. apply andb_true_iff in H. destruct H as [Ha Hs].
    apply Nat.ltb_lt in Ha. destruct (IH Hs) as [E F].
    assert (B : (Unicode.byte a < 128)%Z) by (rewrite byte_nat; lia).
    cbn [Unicode.decode list_ascii_of_string map].
    destruct (Z.ltb_spec (Unicode.byte a) 128); [|lia].
    rewrite E. split; [reflexivity|].
    constructor; [pose proof (byte_range a); lia|]. now rewrite <- E. }
  destruct D as [D F]. rewrite toLower_ascii by exact F. rewrite D. clear D F.
  induction s as [|a s IH]; [reflexivity|].
  cbn [ascii_only] in H. apply andb_true_iff in H. destruct H as [Ha Hs].
  apply Nat.ltb_lt in Ha.
  cbn [list_ascii_of_string map Unicode.encode String.concat small_text].
  unfold Unicode.encode in IH.
  assert (B : (0 <= Unicode.byte a < 128)%Z).
  { pose proof (byte_range a). rewrite byte_nat in *. lia. }
  assert (E1 : Unicode.encode1
                 (if ((65 <=? Unicode.byte a) && (Unicode.byte a <=? 90))%Z
                  then Unicode.byte a + 32 else Unicode.byte a)%Z
               = String (small a) "").
  { unfold Unicode.encode1, small.
    destruct ((65 <=? Unicode.byte a) && (Unicode.byte a <=? 90))%Z eqn:E.
    - apply andb_true_iff in E. destruct E as [E1 E2]. apply Z.leb_le in E1, E2.
      destruct (Z.ltb_spec (Unicode.byte a + 32) 128); [reflexivity|lia].
    - destruct (Z.ltb_spec (Unicode.byte a) 128); [|lia]. now rewrite chr_byte. }
  destruct s as [|a' s'].
  - cbn. now rewrite E1.
  - cbn [list_ascii_of_string map String.concat] in *.
    rewrite E1. cbn [String.append]. f_equal. apply IH. exact Hs.
Qed.

Lemma ascii_only_app (a b : string) :
  ascii_only (a ++ b) = ascii_only a && ascii_only b.
Proof.
  induction a as [|c a IH]; cbn; [reflexivity|]. now rewrite IH, andb_assoc.
Qed.

(** On ASCII text the test of the filter is what the specification asks. *)
Lemma matches_query_ascii (query : string) (m : Memo.t) :
  ascii_only query = true -> ascii_only (Memo.title m) = true ->
  matches_query query m = true <-> title_contains query (Memo.title m).
Proof.
  intros Hq Ht. unfold matches_query, title_contains.
  rewrite (toLowerCase_ascii _ Hq), (toLowerCase_ascii _ Ht), includes_spec. split.
  - intros (x & y & H).
    apply small_text_split in H. destruct H as (before & rest & Hs & <- & H).
    apply small_text_split in H. destruct H as (found & after & -> & Hf & <-).
    exists before, found, after. split; [exact Hs|]. now apply small_text_same.
  - intros (before & found & after & -> & Hf).
    exists (small_text before), (small_text after).
    apply small_text_same in Hf. now rewrite !small_text_app, Hf.
Qed.

Lemma filter_exactly_those {A} (p : A -> bool) (P : A -> Prop) (l : list A) :
  (forall x, In x l -> (p x = true <-> P x)) -> exactly_those P l (filter p l).
Proof.
  induction l as [|x l IH]; intros H; cbn; [constructor|].
  assert (Hl : forall y, In y l -> (p y = true <-> P y))
    by (intros y Hy; apply H; now right).
  destruct (p x) eqn:E.
  - apply those_keep; [apply H; [now left|exact E]|auto].
  - apply those_drop; [|auto]. intros Px. apply H in Px; [|now left]. congruence.
Qed.

(** [exactly_those] leaves no choice. *)
Lemma exactly_those_unique {A} (P : A -> Prop) (l k1 k2 : list A) :
  exactly_those P l k1 -> exactly_those P l k2 -> k1 = k2.
Proof.
  intros H1. revert k2.
  induction H1 as [|x l k Hx _ IH|x l k Hx _ IH]; intros k2 H2;
    inversion H2; subst; try contradiction; auto.
  f_equal. auto.
Qed.




(** The scenario of the specification: of "Meeting Notes" and "Idea", the
    query "idea" keeps "Idea" only. *)
Example filter_scenario :
  let meeting := Memo.mk "1" "Meeting Notes" "blob:1" 0 1 "" in
  let idea := Memo.mk "2" "Idea" "blob:2" 0 2 "" in
  filteredMemos (setSearchQuery "idea" (setMemos [meeting; idea] initial)) = [idea].
Proof. vm_compute. reflexivity. Qed.

(** ** Starting a recording while one runs (claim C5) *)

(** C5 at a concrete run.  After one recording the user starts a second
    one and clicks the stop button while the permission prompt is still
    open: [mediaRecorderRef] still holds the first recorder, so
    [stopRecording] runs, [stop()] does nothing on the inactive recorder
    and [isRecording] becomes false.  The prompt is then answered: the
    suspended call starts a recorder and a timer although [isRecording] is
    false, and the page offers the start button.  A click on it, granted
    again, starts a second recorder beside the first: two sessions are
    active, and [startRecording] changed the state while one was. *)
Theorem sessions_overlap :
  exists s1 s2 s3 first second,
    run initial stopped_too_early = Some s1
    /\ isRecording s1 = false /\ recorders s1 = [first]
    /\ rendered s1 StartButton = true
    /\ step s1 Click_start = Some s2
    /\ step s2 (GetUserMedia_settles 0 true 9000) = Some s3
    /\ recorders s3 = [second; first]
    /\ MediaRecorder.stream first <> MediaRecorder.stream second
    /\ mediaRecorderRef s3 = Some second
    /\ List.length (intervals s3) = 2%nat
    /\ s3 <> s1.
Proof.
  eexists. eexists. eexists. eexists. eexists.
  split; [vm_compute; reflexivity|].
  split; [reflexivity|]. split; [reflexivity|]. split; [reflexivity|].
  split; [vm_compute; reflexivity|].
  split; [vm_compute; reflexivity|].
  split; [reflexivity|]. split; [discriminate|].
  split; [reflexivity|]. split; [reflexivity|]. discriminate.
Qed.

(** ** The rate across a track change (claim C6) *)

(** Whatever rate was chosen, selecting another memo reloads the element,
    and the load puts its rate back to [defaultPlaybackRate]; the state's
    [playbackRate] does not change, so the effect that copies it onto the
    element does not run again. *)
Lemma select_other_resets_rate (s : App) (memo : Memo.t) (o : Audio.PlayOutcome) :
  activeMemoId s <> Some (Memo.id memo) ->
  Audio.playbackRate (audioRef (flush (playMemo s o memo s))) = Audio.defaultPlaybackRate
  /\ playbackRate (flush (playMemo s o memo s)) = playbackRate s.
Proof.
  intros Hne. rewrite (@select_other_unfold s memo o Hne).
  open_state s.
  destruct o; cbn; split; reflexivity.
Qed.

Lemma select_other_resets_rate_witness :
  exists s first,
    run initial (recorded_twice ++ [Click_speed])%list = Some s
    /\ nth_error (memos s) 1 = Some first
    /\ Audio.playbackRate (audioRef s) == 125 # 100
    /\ Audio.playbackRate (audioRef (flush (playMemo s Audio.Plays first s))) == 1
    /\ playbackRate (flush (playMemo s Audio.Plays first s)) == 125 # 100.
Proof.
  destruct (run initial (recorded_twice ++ [Click_speed])%list) as [s|] eqn:E;
    [|discriminate E].
  destruct (nth_error (memos s) 1) as [first|] eqn:F;
    [|vm_compute in E; injection E as <-; discriminate F].
  assert (A : activeMemoId s = Some "9000").
  { vm_compute in E. injection E as <-. reflexivity. }
  assert (I : Memo.id first = "5000").
  { vm_compute in E. injection E as <-. cbn in F. injection F as <-. reflexivity. }
  assert (Rs : playbackRate s = 125 # 100).
  { vm_compute in E. injection E as <-. reflexivity. }
  assert (Ra : Audio.playbackRate (audioRef s) = 125 # 100).
  { vm_compute in E. injection E as <-. reflexivity. }
  assert (N : activeMemoId s <> Some (Memo.id first)).
  { rewrite A, I. discriminate. }
  destruct (@select_other_resets_rate s first Audio.Plays N) as [H1 H2].
  exists s, first. split; [reflexivity|]. split; [exact F|].
  rewrite H1, H2, Rs, Ra. repeat split; reflexivity.
Defined.

(** C6 at a concrete run: two memos, the second active; the speed button
    takes the rate from 1 to 1.25 on the state and on the element; a click on
    the first memo then leaves the state at 1.25 and the element at 1. *)
Theorem rate_lost_on_track_change :
  exists s1 s2,
    run initial (recorded_twice ++ [Click_speed])%list = Some s1
    /\ playbackRate s1 == 125 # 100
    /\ Audio.playbackRate (audioRef s1) == 125 # 100
    /\ step s1 (Click_memo 1 Audio.Plays) = Some s2
    /\ activeMemoId s1 = Some "9000" /\ activeMemoId s2 = Some "5000"
    /\ isPlaying s2 = true
    /\ playbackRate s2 == 125 # 100
    /\ Audio.playbackRate (audioRef s2) == 1
    /\ ~ Audio.playbackRate (audioRef s2) == playbackRate s2.
Proof.
  eexists. eexists. split; [vm_compute; reflexivity|].
  split; [reflexivity|]. split; [reflexivity|].
  split; [vm_compute; reflexivity|].
  repeat split. discriminate.
Qed.

(** ** The end of a track (claim C1) *)

(** Under [LOOP_ALL], with the active memo at an index of the store and the
    memo after it (cyclically) carrying another id, the end of the track
    selects that memo: [handlePlaybackEnded] is [playMemo] of it, the active
    id and the element's source become its id and url, and unless [play()]
    is refused the element plays and [isPlaying] is [true]. *)
Lemma loop_all_advances (r s : App) (o : Audio.PlayOutcome) (next : Memo.t) :
  playbackMode r = LOOP_ALL ->
  let i := findIndex (fun m => id_is (activeMemoId r) (Memo.id m)) (memos r) in
  i <> (-1)%Z ->
  at_index (memos r) ((i + 1) mod length_Z (memos r)) = Some next ->
  activeMemoId r <> Some (Memo.id next) ->
  let s' := flush (handlePlaybackEnded r o s) in
  s' = flush (playMemo r o next s)
  /\ activeMemoId s' = Some (Memo.id next)
  /\ Audio.src (audioRef s') = Memo.url next
  /\ (o <> Audio.NotAllowed ->
      isPlaying s' = true /\ Audio.paused (audioRef s') = false).
Proof.
  intros Hm i Hi Hn Hne. cbn zeta.
  assert (E : handlePlaybackEnded r o s = playMemo r o next s).
  { unfold handlePlaybackEnded. rewrite Hm. cbn [PlaybackMode_eqb].
    fold i. destruct (Z.eqb_spec i (-1)); [contradiction|]. now rewrite Hn. }
  rewrite E. split; [reflexivity|].
  unfold playMemo.
  assert (F : id_is (activeMemoId r) (Memo.id next) = false).
  { destruct (activeMemoId r) as [a|]; cbn; [|reflexivity].
    apply String.eqb_neq. congruence. }
  rewrite F.
  open_state s.
  destruct o; cbn; repeat split; congruence.
Qed.

(** Two memos, the first of the store playing, then the second (the last):
    at the end of the track the other memo is selected, the last wrapping
    to the first. *)
Lemma loop_all_advances_witness :
  exists s second,
    run initial (recorded_twice ++ [Click_memo 1 Audio.Plays])%list = Some s
    /\ activeMemoId s = Some "5000"
    /\ nth_error (memos s) 0 = Some second
    /\ activeMemoId (flush (handlePlaybackEnded s Audio.Plays s)) = Some "9000"
    /\ isPlaying (flush (handlePlaybackEnded s Audio.Plays s)) = true.
Proof.
  destruct (run initial (recorded_twice ++ [Click_memo 1 Audio.Plays])%list)
    as [s|] eqn:E; [|discriminate E].
  destruct (nth_error (memos s) 0) as [second|] eqn:F;
    [|vm_compute in E; injection E as <-; discriminate F].
  assert (A : activeMemoId s = Some "5000").
  { vm_compute in E. injection E as <-. reflexivity. }
  assert (I : Memo.id second = "9000").
  { vm_compute in E. injection E as <-. cbn in F. injection F as <-. reflexivity. }
  assert (Hm : playbackMode s = LOOP_ALL).
  { vm_compute in E. injection E as <-. reflexivity. }
  assert (Hi : findIndex (fun m => id_is (activeMemoId s) (Memo.id m)) (memos s)
               <> (-1)%Z).
  { vm_compute in E. injection E as <-. discriminate. }
  assert (Hn : at_index (memos s)
                 ((findIndex (fun m => id_is (activeMemoId s) (Memo.id m)) (memos s) + 1)
                  mod length_Z (memos s)) = Some second).
  { rewrite <- F. vm_compute in E. injection E as <-. reflexivity. }
  assert (N : activeMemoId s <> Some (Memo.id second)).
  { rewrite A, I. discriminate. }
  assert (O : Audio.Plays <> Audio.NotAllowed) by discriminate.
  destruct (@loop_all_advances s s Audio.Plays second Hm Hi Hn N) as (_ & H1 & _ & H2).
  exists s, second. split; [reflexivity|]. split; [exact A|]. split; [exact F|].
  split; [now rewrite H1, I|]. apply (H2 O).
Defined.

(** With the active id absent from the store (or no memo active), the end
    of a track changes nothing unless the mode is [LOOP_ONE]. *)
Lemma ended_without_active_memo (r s : App) (o : Audio.PlayOutcome) :
  playbackMode r <> LOOP_ONE ->
  (forall m, In m (memos r) -> activeMemoId r <> Some (Memo.id m)) ->
  handlePlaybackEnded r o s = s.
Proof.
  intros Hm Hn. unfold handlePlaybackEnded.
  destruct (playbackMode r); cbn [PlaybackMode_eqb]; try congruence.
  all: set (i := findIndex _ _).
  all: assert (E : i = (-1)%Z)
    by (apply findIndex_none; intros m Hin;
        specialize (Hn m Hin); destruct (activeMemoId r) as [a|]; cbn;
        [apply String.eqb_neq; congruence|reflexivity]).
  all: now rewrite E.
Qed.

(** Two memos in the store, ids "9000" and "5000", and a listener whose
    render names the id "7000", which no memo carries: both memos are
    looked at, none is found, and the state stays as it is. *)
Lemma ended_without_active_memo_witness :
  exists s,
    run initial recorded_twice = Some s
    /\ map Memo.id (memos s) = ["9000"; "5000"]
    /\ handlePlaybackEnded (setActiveMemoId (Some "7000") s) Audio.Plays s = s.
Proof.
  destruct (run initial recorded_twice) as [s|] eqn:E; [|discriminate E].
  exists s. split; [reflexivity|].
  assert (I : map Memo.id (memos s) = ["9000"; "5000"]).
  { vm_compute in E. injection E as <-. reflexivity. }
  assert (M : playbackMode s = LOOP_ALL).
  { vm_compute in E. injection E as <-. reflexivity. }
  split; [exact I|].
  apply (@ended_without_active_memo (setActiveMemoId (Some "7000") s) s Audio.Plays).
  - cbn. rewrite M. discriminate.
  - cbn. intros m Hm [= Hid].
    assert (Hin : In (Memo.id m) (map Memo.id (memos s))) by now apply in_map.
    rewrite I, <- Hid in Hin. destruct Hin as [H|[H|[]]]; discriminate H.
Defined.

(** C1 at a concrete run: one memo, recorded, played, the mode button
    clicked three times while it plays (back to [LOOP_ALL]; the listener is
    registered again and closes over [isPlaying = true]).  At the end of the
    track the index after the current one is the current one, [playMemo]
    takes its toggle branch and calls [pause()] on the element that has just
    ended: nothing plays.  A listener that closed over [isPlaying = false]
    calls [play()] instead. *)
Theorem loop_all_single_memo :
  exists s s_stale s_fresh,
    run initial (playing_first ++ [Click_mode; Click_mode; Click_mode])%list = Some s
    /\ playbackMode s = LOOP_ALL
    /\ map Memo.id (memos s) = ["5000"] /\ activeMemoId s = Some "5000"
    /\ isPlaying s = true
    /\ step s (Audio_ended true Audio.Plays) = Some s_stale
    /\ activeMemoId s_stale = Some "5000"
    /\ isPlaying s_stale = false /\ Audio.paused (audioRef s_stale) = true
    /\ step s (Audio_ended false Audio.Plays) = Some s_fresh
    /\ isPlaying s_fresh = true /\ Audio.paused (audioRef s_fresh) = false.
Proof.
  eexists. eexists. eexists. split; [vm_compute; reflexivity|].
  do 4 (split; [reflexivity|]).
  split; [vm_compute; reflexivity|].
  do 3 (split; [reflexivity|]).
  split; [vm_compute; reflexivity|].
  split; reflexivity.
Qed.

(** The scenario of the specification: store [A; B], mode [LOOP_ALL], [A]
    active and playing to its end: then [B] is active, at position 0, and
    plays. *)
Example loop_all_scenario :
  exists s,
    run initial (recorded_twice
                 ++ [Click_memo 0 Audio.Plays; Audio_timeupdate 10;
                     Audio_ended true Audio.Plays])%list = Some s
    /\ map Memo.id (memos s) = ["9000"; "5000"]
    /\ activeMemoId s = Some "5000"
    /\ Audio.currentTime (audioRef s) = 0
    /\ isPlaying s = true.
Proof.
  eexists. split; [vm_compute; reflexivity|]. repeat split.
Qed.

(** ** Finalizing a recording (claim C3) *)





(** C3 at the scenario of the specification: a recording is started from
    the first render, 3.2 s elapse (the timer's last reading), and the user
    stops.  One memo is finalized, at index 0, titled "New Recording 1",
    active and not playing; its duration is 0, not the 3.2 s that
    [recordingTime] shows. *)
Theorem finalized_duration_is_stale :
  exists s1 s2 m,
    run initial [Click_start; GetUserMedia_settles 0 true 1000; Timer_fires 2 4200]
    = Some s1
    /\ isRecording s1 = true /\ recordingTime s1 == 32 # 10
    /\ step s1 (Click_stop "abc" 5000 5001 "blob:1") = Some s2
    /\ memos s2 = [m]
    /\ Memo.title m = "New Recording 1"
    /\ activeMemoId s2 = Some (Memo.id m)
    /\ isPlaying s2 = false
    /\ Memo.duration m = 0
    /\ ~ Memo.duration m == recordingTime s1.
Proof.
  eexists. eexists. eexists. split; [vm_compute; reflexivity|].
  split; [reflexivity|]. split; [reflexivity|].
  split; [vm_compute; reflexivity|].
  repeat split. discriminate.
Qed.

(** * Further properties of the component *)

(** ** The mode and speed buttons (lines 107-117) *)

(** The mode button walks the cycle [LOOP_ALL], [LOOP_ONE], [SEQUENTIAL]:
    every click changes the mode and nothing else, and three clicks bring
    the first mode back. *)
Lemma mode_cycle (s : App) :
  playbackMode (click_mode s)
  = match playbackMode s with
    | LOOP_ALL => LOOP_ONE
    | LOOP_ONE => SEQUENTIAL
    | SEQUENTIAL => LOOP_ALL
    end
  /\ click_mode s = setPlaybackMode (playbackMode (click_mode s)) s
  /\ playbackMode (click_mode s) <> playbackMode s
  /\ playbackMode (click_mode (click_mode s)) <> playbackMode s
  /\ playbackMode (click_mode (click_mode (click_mode s))) = playbackMode s.
Proof.
  open_state s.
  destruct mode; cbn; repeat split; discriminate.
Qed.

(** The speed button, from a rate of the list: the next rate is the
    following one of the list (the first after the last), the element
    takes it at once, and five clicks bring the first rate back. *)
Lemma speed_cycle (s : App) :
  In (playbackRate s) PLAYBACK_SPEEDS ->
  In (playbackRate (click_speed s)) PLAYBACK_SPEEDS
  /\ ~ playbackRate (click_speed s) == playbackRate s
  /\ Audio.playbackRate (audioRef (click_speed s)) = playbackRate (click_speed s)
  /\ playbackRate (click_speed (click_speed (click_speed (click_speed (click_speed s)))))
     = playbackRate s.
Proof.
  open_state s.
  cbn [playbackRate]. intros [<-|[<-|[<-|[<-|[<-|[]]]]]].
  all: split; [vm_compute; tauto|].
  all: split; [vm_compute; discriminate|].
  all: split; vm_compute; reflexivity.
Qed.

Lemma speed_cycle_witness :
  playbackRate (click_speed initial) == 125 # 100
  /\ playbackRate (click_speed (click_speed (click_speed (click_speed (click_speed initial)))))
     = 1.
Proof.
  assert (H : In (playbackRate initial) PLAYBACK_SPEEDS) by (cbn; auto).
  destruct (@speed_cycle initial H) as (_ & _ & _ & H5).
  split; [reflexivity|exact H5].
Defined.

(** In every reachable state the rate is one of the five speeds, and the
    element runs at that rate or at the default one. *)
Lemma rate_is_listed (s : App) :
  reachable s ->
  In (playbackRate s) PLAYBACK_SPEEDS
  /\ (Audio.playbackRate (audioRef s) = playbackRate s
      \/ Audio.playbackRate (audioRef s) = 1).
Proof.
  intros HR. apply reachable_Ranges in HR.
  split; [apply (rng_rate HR)|apply (rng_element_rate HR)].
Qed.

Lemma rate_is_listed_witness :
  exists s, run initial (recorded_once ++ [Click_speed; Click_speed])%list = Some s
    /\ In (playbackRate s) PLAYBACK_SPEEDS.
Proof.
  destruct (run initial (recorded_once ++ [Click_speed; Click_speed])%list)
    as [s|] eqn:E; [|discriminate E].
  exists s. split; [reflexivity|].
  apply (@rate_is_listed s (ex_intro _ _ E)).
Defined.

(** ** Positions (lines 40-41, 102-105, 329-339) *)

(** In every reachable state the duration, the reported position and the
    element's position are not negative. *)
Lemma positions_not_negative (s : App) :
  reachable s ->
  0 <= duration s /\ 0 <= playbackTime s /\ 0 <= Audio.currentTime (audioRef s).
Proof.
  intros HR. apply reachable_Ranges in HR.
  destruct (rng_position HR). split; [apply (rng_duration HR)|]. now split.
Qed.

Lemma positions_not_negative_witness :
  exists s,
    run initial (recorded_once
                 ++ [Audio_loadedmetadata (Some 20); Click_rewind])%list = Some s
    /\ 0 <= Audio.currentTime (audioRef s).
Proof.
  destruct (run initial (recorded_once
                         ++ [Audio_loadedmetadata (Some 20); Click_rewind])%list)
    as [s|] eqn:E; [|discriminate E].
  exists s. split; [reflexivity|].
  apply (@positions_not_negative s (ex_intro _ _ E)).
Defined.

(** In every reachable state the two skip buttons leave the element within
    [0, duration].  When the element has the metadata of its resource the
    assignment is a seek, whose [timeupdate] makes [playbackTime] the new
    position; before that the element only stores the value and
    [playbackTime] stays.  Nothing changes but the element's position and
    [playbackTime]: the element keeps its source and plays on or stays
    paused. *)
Lemma skip_buttons_within (s s' : App) (e : Event) :
  reachable s ->
  e = Click_rewind \/ e = Click_forward ->
  step s e = Some s' ->
  0 <= Audio.currentTime (audioRef s') <= duration s'
  /\ playbackTime s'
     = (if Audio.has_metadata (audioRef s) then Audio.currentTime (audioRef s')
        else playbackTime s)
  /\ s' = setPlaybackTime (playbackTime s') (set_audioRef (audioRef s') s)
  /\ Audio.src (audioRef s') = Audio.src (audioRef s)
  /\ Audio.paused (audioRef s') = Audio.paused (audioRef s).
Proof.
  intros HR He H.
  pose proof (rng_duration (reachable_Ranges HR)) as Hd.
  pose proof (inv_pending (reachable_Inv HR)) as Hp.
  assert (K : exists d, s' = flush (skipTime s d s)).
  { unfold step in H. destruct He as [-> | ->]; cbn [handle] in H; unfold guard in H.
    - destruct (rendered s RewindButton); [|discriminate]. cbn [option_map] in H.
      injection H as <-. now exists (-15).
    - destruct (rendered s ForwardButton); [|discriminate]. cbn [option_map] in H.
      injection H as <-. now exists 15. }
  destruct K as [d ->]. unfold skipTime, flush, audio_set, Audio.set_currentTime,
    Audio.has_metadata, Audio.seek.
  open_state s. cbn in *. subst pend.
  destruct rs; cbn; (split; [split; [now apply clamp_nonneg|apply Q.le_min_r]|]);
    repeat split.
Qed.

Lemma skip_buttons_within_witness :
  exists s s',
    run initial (recorded_once ++ [Audio_loadedmetadata (Some 20)])%list = Some s
    /\ playbackTime s == 0
    /\ step s Click_forward = Some s'
    /\ Audio.currentTime (audioRef s') <= duration s'
    /\ playbackTime s' = Audio.currentTime (audioRef s').
Proof.
  destruct (run initial (recorded_once ++ [Audio_loadedmetadata (Some 20)])%list)
    as [s|] eqn:E; [|discriminate E].
  destruct (step s Click_forward) as [s'|] eqn:F;
    [|vm_compute in E; injection E as <-; discriminate F].
  assert (M : Audio.has_metadata (audioRef s) = true).
  { vm_compute in E. injection E as <-. reflexivity. }
  assert (P : playbackTime s == 0).
  { vm_compute in E. injection E as <-. reflexivity. }
  destruct (@skip_buttons_within s s' Click_forward (ex_intro _ _ E) (or_intror eq_refl) F)
    as (H1 & H2 & _).
  rewrite M in H2.
  exists s, s'. split; [reflexivity|]. split; [exact P|]. split; [exact F|].
  split; [apply H1|exact H2].
Defined.

(** ** The end of a track under [LOOP_ONE] and [SEQUENTIAL] (lines 68-81) *)

(** What the [ended] event finds: the element, just paused by its own end,
    [playbackTime] and [isPlaying] set by the [timeupdate] and [pause]
    listeners. *)
Lemma ended_unfold (s s' : App) (b : bool) (o : Audio.PlayOutcome) :
  reachable s -> step s (Audio_ended b o) = Some s' ->
  Audio.paused (audioRef s) = false
  /\ Audio.pending (audioRef s) = []
  /\ s' = flush (handlePlaybackEnded (listener_render b s) o
                   (onPause (updateTime (audio_set Audio.reach_end s)))).
Proof.
  intros HR H. unfold step in H. cbn [handle] in H. unfold guard in H.
  destruct (Audio.paused (audioRef s)) eqn:P; cbn in H; [discriminate|].
  injection H as <-. split; [reflexivity|]. split; [|reflexivity].
  apply (inv_pending (reachable_Inv HR)).
Qed.

(** Under [LOOP_ONE] the end of a track keeps the active memo, the store
    and the element's source, puts the position back to 0 and plays again;
    when [play()] is refused, or the element holds an error, it stays
    paused with [isPlaying] false. *)
Lemma loop_one_replays (s s' : App) (b : bool) (o : Audio.PlayOutcome) :
  reachable s -> playbackMode s = LOOP_ONE ->
  step s (Audio_ended b o) = Some s' ->
  activeMemoId s' = activeMemoId s
  /\ memos s' = memos s
  /\ Audio.src (audioRef s') = Audio.src (audioRef s)
  /\ Audio.currentTime (audioRef s') = 0
  /\ isPlaying s' = negb (Audio.paused (audioRef s'))
  /\ (Audio.paused (audioRef s') = false
      <-> o <> Audio.NotAllowed /\ Audio.error (audioRef s) = false).
Proof.
  intros HR Hm H. destruct (@ended_unfold s s' b o HR H) as (P & Pe & ->).
  unfold handlePlaybackEnded, listener_render.
  open_state s. cbn in *. subst. cbn.
  unfold flush, audio_set, Audio.play, Audio.start. cbn.
  destruct err; cbn.
  - repeat split; try discriminate. intros [_ ?]. discriminate.
  - destruct o; cbn;
      repeat match goal with |- context [if ?c then _ else _] => destruct c end;
      cbn; repeat split; try discriminate; try congruence.
    intros [? _]. congruence.
Qed.

Lemma loop_one_replays_witness :
  exists s s',
    run initial (playing_first ++ [Click_mode])%list = Some s
    /\ step s (Audio_ended true Audio.Plays) = Some s'
    /\ activeMemoId s' = Some "5000" /\ isPlaying s' = true.
Proof.
  destruct (run initial (playing_first ++ [Click_mode])%list) as [s|] eqn:E;
    [|discriminate E].
  destruct (step s (Audio_ended true Audio.Plays)) as [s'|] eqn:F;
    [|vm_compute in E; injection E as <-; discriminate F].
  assert (M : playbackMode s = LOOP_ONE).
  { vm_compute in E. injection E as <-. reflexivity. }
  assert (A : activeMemoId s = Some "5000").
  { vm_compute in E. injection E as <-. reflexivity. }
  assert (Er : Audio.error (audioRef s) = false).
  { vm_compute in E. injection E as <-. reflexivity. }
  destruct (@loop_one_replays s s' true Audio.Plays (ex_intro _ _ E) M F)
    as (H1 & _ & _ & _ & H2 & H3).
  exists s, s'. split; [reflexivity|]. split; [exact F|].
  split; [now rewrite H1|]. rewrite H2.
  assert (P : Audio.paused (audioRef s') = false)
    by (apply H3; split; [discriminate|exact Er]).
  now rewrite P.
Defined.

(** Under [SEQUENTIAL], when the active memo is the last of the store, the
    end of the track keeps the active memo and leaves the element as it
    ended: paused, same source, same position, [isPlaying] false. *)
Lemma sequential_last_stops (s s' : App) (b : bool) (o : Audio.PlayOutcome) :
  reachable s -> playbackMode s = SEQUENTIAL ->
  findIndex (fun m => id_is (activeMemoId s) (Memo.id m)) (memos s)
  = (length_Z (memos s) - 1)%Z ->
  step s (Audio_ended b o) = Some s' ->
  activeMemoId s' = activeMemoId s
  /\ memos s' = memos s
  /\ isPlaying s' = false
  /\ Audio.paused (audioRef s') = true
  /\ Audio.src (audioRef s') = Audio.src (audioRef s)
  /\ Audio.currentTime (audioRef s') = Audio.currentTime (audioRef s).
Proof.
  intros HR Hm Hi H. destruct (@ended_unfold s s' b o HR H) as (P & Pe & ->).
  unfold handlePlaybackEnded, listener_render.
  cbn [playbackMode memos activeMemoId setIsPlaying].
  rewrite Hm, Hi. cbn [PlaybackMode_eqb].
  rewrite Z.ltb_irrefl.
  open_state s. cbn in *. subst.
  destruct (_ =? -1)%Z; cbn; repeat split.
Qed.

Lemma sequential_last_stops_witness :
  exists s s',
    run initial (recorded_twice
                 ++ [Click_memo 1 Audio.Plays; Click_mode; Click_mode])%list = Some s
    /\ step s (Audio_ended false Audio.Plays) = Some s'
    /\ activeMemoId s' = Some "5000" /\ isPlaying s' = false.
Proof.
  destruct (run initial (recorded_twice
                         ++ [Click_memo 1 Audio.Plays; Click_mode; Click_mode])%list)
    as [s|] eqn:E; [|discriminate E].
  destruct (step s (Audio_ended false Audio.Plays)) as [s'|] eqn:F;
    [|vm_compute in E; injection E as <-; discriminate F].
  assert (M : playbackMode s = SEQUENTIAL).
  { vm_compute in E. injection E as <-. reflexivity. }
  assert (A : activeMemoId s = Some "5000").
  { vm_compute in E. injection E as <-. reflexivity. }
  assert (I : findIndex (fun m => id_is (activeMemoId s) (Memo.id m)) (memos s)
              = (length_Z (memos s) - 1)%Z).
  { vm_compute in E. injection E as <-. reflexivity. }
  destruct (@sequential_last_stops s s' false Audio.Plays (ex_intro _ _ E) M I F)
    as (H1 & _ & H2 & _).
  exists s, s'. split; [reflexivity|]. split; [exact F|].
  split; [now rewrite H1|exact H2].
Defined.

(** Under [SEQUENTIAL], with the active memo found before the last index and
    the memo after it carrying another id, the end of the track selects
    that memo and plays it (unless [play()] is refused). *)
Lemma sequential_advances (r s : App) (o : Audio.PlayOutcome) (next : Memo.t) :
  playbackMode r = SEQUENTIAL ->
  let i := findIndex (fun m => id_is (activeMemoId r) (Memo.id m)) (memos r) in
  (0 <= i < length_Z (memos r) - 1)%Z ->
  at_index (memos r) (i + 1) = Some next ->
  activeMemoId r <> Some (Memo.id next) ->
  let s' := flush (handlePlaybackEnded r o s) in
  activeMemoId s' = Some (Memo.id next)
  /\ memos s' = memos s
  /\ Audio.src (audioRef s') = Memo.url next
  /\ Audio.currentTime (audioRef s') = 0
  /\ (o <> Audio.NotAllowed ->
      isPlaying s' = true /\ Audio.paused (audioRef s') = false).
Proof.
  intros Hm i Hi Hn Hne. cbn zeta.
  assert (E : handlePlaybackEnded r o s = playMemo r o next s).
  { unfold handlePlaybackEnded. rewrite Hm. cbn [PlaybackMode_eqb].
    fold i. destruct (Z.eqb_spec i (-1)); [lia|].
    destruct (Z.ltb_spec i (length_Z (memos r) - 1)); [|lia]. now rewrite Hn. }
  rewrite E. unfold playMemo.
  assert (F : id_is (activeMemoId r) (Memo.id next) = false).
  { destruct (activeMemoId r) as [a|]; cbn; [|reflexivity].
    apply String.eqb_neq. congruence. }
  rewrite F. open_state s.
  destruct o; cbn; repeat split; congruence.
Qed.

Lemma sequential_advances_witness :
  exists s next,
    run initial (recorded_twice ++ [Click_mode; Click_mode])%list = Some s
    /\ nth_error (memos s) 1 = Some next
    /\ activeMemoId s = Some "9000"
    /\ activeMemoId (flush (handlePlaybackEnded s Audio.Plays s)) = Some "5000".
Proof.
  destruct (run initial (recorded_twice ++ [Click_mode; Click_mode])%list)
    as [s|] eqn:E; [|discriminate E].
  destruct (nth_error (memos s) 1) as [next|] eqn:F;
    [|vm_compute in E; injection E as <-; discriminate F].
  assert (A : activeMemoId s = Some "9000").
  { vm_compute in E. injection E as <-. reflexivity. }
  assert (I : Memo.id next = "5000").
  { vm_compute in E. injection E as <-. cbn in F. injection F as <-. reflexivity. }
  assert (M : playbackMode s = SEQUENTIAL).
  { vm_compute in E. injection E as <-. reflexivity. }
  assert (Hi : (0 <= findIndex (fun m => id_is (activeMemoId s) (Memo.id m)) (memos s)
                < length_Z (memos s) - 1)%Z).
  { vm_compute in E. injection E as <-. vm_compute. split; [discriminate|reflexivity]. }
  assert (Hn : at_index (memos s)
                 (findIndex (fun m => id_is (activeMemoId s) (Memo.id m)) (memos s) + 1)
               = Some next).
  { rewrite <- F. vm_compute in E. injection E as <-. reflexivity. }
  assert (N : activeMemoId s <> Some (Memo.id next)).
  { rewrite A, I. discriminate. }
  destruct (@sequential_advances s s Audio.Plays next M Hi Hn N) as (H1 & _).
  exists s, next. split; [reflexivity|]. split; [exact F|]. split; [exact A|].
  now rewrite H1, I.
Defined.

(** ** Selecting a memo (lines 90-100) *)



(** A click on another memo, when [play()] is not refused: that memo
    becomes the active one, the element takes its url, starts at position
    0 and plays, [isPlaying] is true, and nothing else of the state
    changes. *)
Lemma select_other_plays (s : App) (memo : Memo.t) (o : Audio.PlayOutcome) :
  activeMemoId s <> Some (Memo.id memo) ->
  o <> Audio.NotAllowed ->
  let s' := flush (playMemo s o memo s) in
  activeMemoId s' = Some (Memo.id memo)
  /\ Audio.src (audioRef s') = Memo.url memo
  /\ Audio.currentTime (audioRef s') = 0
  /\ Audio.paused (audioRef s') = false
  /\ isPlaying s' = true
  /\ s' = set_audioRef (audioRef s')
            (setIsPlaying true (setActiveMemoId (Some (Memo.id memo)) s)).
Proof.
  intros Hne Ho. cbn zeta. rewrite (@select_other_unfold s memo o Hne).
  open_state s. destruct o; [| |congruence]; cbn; repeat split.
Qed.

Lemma select_other_plays_witness :
  exists s first,
    run initial recorded_twice = Some s
    /\ nth_error (memos s) 1 = Some first
    /\ activeMemoId (flush (playMemo s Audio.Plays first s)) = Some "5000"
    /\ isPlaying (flush (playMemo s Audio.Plays first s)) = true.
Proof.
  destruct (run initial recorded_twice) as [s|] eqn:E; [|discriminate E].
  destruct (nth_error (memos s) 1) as [first|] eqn:F;
    [|vm_compute in E; injection E as <-; discriminate F].
  assert (A : activeMemoId s = Some "9000").
  { vm_compute in E. injection E as <-. reflexivity. }
  assert (I : Memo.id first = "5000").
  { vm_compute in E. injection E as <-. cbn in F. injection F as <-. reflexivity. }
  assert (N : activeMemoId s <> Some (Memo.id first)).
  { rewrite A, I. discriminate. }
  assert (O : Audio.Plays <> Audio.NotAllowed) by discriminate.
  destruct (@select_other_plays s first Audio.Plays N O) as (H1 & _ & _ & _ & H2 & _).
  exists s, first. split; [reflexivity|]. split; [exact F|].
  split; [now rewrite H1, I|exact H2].
Defined.

(** ** Starting a recording (lines 120-173) *)

(** The start button, in a reachable state.  The click shows the overlay,
    whose only control is the stop button, pauses playback and sets
    [isPlaying] false; the call is suspended with the store and the
    [recordingTime] of the render that was clicked.  The element keeps its
    source and its position; apart from the overlay, the play state, the
    reported position and the suspended call nothing changes: no recorder
    and no timer exist for this recording until the prompt is answered. *)
Lemma start_recording (s s' : App) :
  reachable s -> step s Click_start = Some s' ->
  isRecording s = false
  /\ isRecording s' = true
  /\ isPlaying s' = false
  /\ Audio.paused (audioRef s') = true
  /\ (forall c, rendered s' c = true -> c = StopButton)
  /\ awaiting s' = (awaiting s ++ [Suspended.mk (memos s) (recordingTime s)])%list
  /\ Audio.src (audioRef s') = Audio.src (audioRef s)
  /\ Audio.currentTime (audioRef s') = Audio.currentTime (audioRef s)
  /\ s' = set_awaiting (awaiting s')
            (set_audioRef (audioRef s')
               (setPlaybackTime (playbackTime s')
                  (setIsPlaying false (setIsRecording true s)))).
Proof.
  intros HR H. pose proof (reachable_Inv HR) as [Pe _ _ _ _].
  unfold step in H. cbn [handle] in H. unfold guard, rendered in H.
  destruct (isRecording s) eqn:R; [discriminate|]. cbn [option_map] in H.
  injection H as <-.
  open_state s. cbn in *. subst.
  unfold startRecording, flush, audio_set, Audio.pause, rendered. cbn.
  destruct pz; cbn; repeat split; try (intros c; destruct c; congruence).
Qed.

Lemma start_recording_witness :
  exists s s',
    run initial playing_first = Some s /\ isPlaying s = true
    /\ step s Click_start = Some s'
    /\ isPlaying s' = false /\ isRecording s' = true
    /\ recorders s' = [] /\ List.length (awaiting s') = 1%nat.
Proof.
  destruct (run initial playing_first) as [s|] eqn:E; [|discriminate E].
  destruct (step s Click_start) as [s'|] eqn:F;
    [|vm_compute in E; injection E as <-; discriminate F].
  assert (P : isPlaying s = true).
  { vm_compute in E. injection E as <-. reflexivity. }
  assert (Rs : recorders s = []).
  { vm_compute in E. injection E as <-. reflexivity. }
  assert (Aw : awaiting s = []).
  { vm_compute in E. injection E as <-. reflexivity. }
  destruct (@start_recording s s' (ex_intro _ _ E) F)
    as (_ & H1 & H2 & _ & _ & H3 & _ & _ & H4).
  exists s, s'. split; [reflexivity|]. split; [exact P|]. split; [exact F|].
  split; [exact H2|]. split; [exact H1|].
  split; [rewrite H4; exact Rs|]. rewrite H3, Aw. reflexivity.
Defined.

(** The answer to the permission prompt, in a reachable state.  The
    suspended call leaves the list.  When access is granted, a recorder
    and a timer that did not exist before run beside those that did; the
    recorder's [onstop] reads the store and the [recordingTime] of the
    render that was clicked; [mediaRecorderRef] and [recordingTimerRef]
    now hold the two, the chunk buffer is empty, and [isRecording] is not
    touched.  When it is denied, [isRecording] becomes false and nothing
    else changes. *)
Lemma microphone_answer (s s' : App) (k : nat) (granted : bool) (now : Z) :
  reachable s -> step s (GetUserMedia_settles k granted now) = Some s' ->
  exists call,
    nth_error (awaiting s) k = Some call
    /\ awaiting s' = without k (awaiting s)
    /\ if granted then
         exists rec timer,
           mediaRecorderRef s' = Some rec
           /\ recorders s' = rec :: recorders s
           /\ is_recording rec s = false
           /\ MediaRecorder.onstop_memos rec = Suspended.memos call
           /\ MediaRecorder.onstop_recordingTime rec = Suspended.recordingTime call
           /\ recordingTimerRef s' = Some timer
           /\ intervals s' = (timer, now) :: intervals s
           /\ timer_runs timer s = false
           /\ audioChunksRef s' = []
           /\ isRecording s' = isRecording s
           /\ memos s' = memos s /\ activeMemoId s' = activeMemoId s
           /\ audioRef s' = audioRef s
       else
         s' = setIsRecording false (set_awaiting (without k (awaiting s)) s).
Proof.
  intros HR H. pose proof (reachable_Inv HR) as [Pe _ _ _ _].
  pose proof (reachable_Sessions HR) as [_ _ [H1 H2] _ _].
  unfold step in H. cbn [handle] in H.
  destruct (nth_error (awaiting s) k) as [call|] eqn:N; [|discriminate].
  cbn [option_map] in H. injection H as <-.
  exists call. split; [reflexivity|].
  rewrite flush_idle by (unfold startRecording_resumes; destruct granted; exact Pe).
  unfold startRecording_resumes. destruct granted.
  - split; [reflexivity|]. eexists. eexists.
    cbn. repeat split.
    + rewrite is_recording_eq. cbn.
      destruct (existsb _ (recorders s)) eqn:X; [|reflexivity].
      apply existsb_exists in X. destruct X as (x & Hx & Kx).
      apply Nat.eqb_eq in Kx. specialize (H1 x Hx). lia.
    + unfold timer_runs.
      destruct (existsb _ (intervals s)) eqn:X; [|reflexivity].
      apply existsb_exists in X. destruct X as (x & Hx & Kx).
      apply Nat.eqb_eq in Kx. specialize (H2 x Hx). lia.
  - split; reflexivity.
Qed.

(** The prompt answered after the stop button was clicked: the recorder
    starts although the overlay is gone. *)
Lemma microphone_answer_witness :
  exists s s',
    run initial (recorded_once ++ [Click_start; Click_stop "" 6000 6001 "blob:2"])%list
    = Some s
    /\ isRecording s = false /\ recorders s = []
    /\ step s (GetUserMedia_settles 0 true 7000) = Some s'
    /\ isRecording s' = false /\ List.length (recorders s') = 1%nat.
Proof.
  destruct (run initial (recorded_once ++ [Click_start; Click_stop "" 6000 6001 "blob:2"])%list)
    as [s|] eqn:E; [|discriminate E].
  destruct (step s (GetUserMedia_settles 0 true 7000)) as [s'|] eqn:F;
    [|vm_compute in E; injection E as <-; discriminate F].
  assert (R : isRecording s = false).
  { vm_compute in E. injection E as <-. reflexivity. }
  assert (Rs : recorders s = []).
  { vm_compute in E. injection E as <-. reflexivity. }
  destruct (@microphone_answer s s' 0 true 7000 (ex_intro _ _ E) F)
    as (call & _ & _ & rec & timer & _ & H1 & _ & _ & _ & _ & _ & _ & _ & H2 & _).
  exists s, s'. split; [reflexivity|]. split; [exact R|]. split; [exact Rs|].
  split; [exact F|]. split; [now rewrite H2|]. rewrite H1, Rs. reflexivity.
Defined.

(** ** Renaming the active memo (lines 313-318) *)

(** Typing in the title input changes titles only: the store keeps its
    length and, position by position, every id, url, duration, date and
    blob; a memo gets the new title exactly when it carries the active
    memo's id; the rest of the state is as before. *)
Lemma rename_active (s : App) (active : Memo.t) (newTitle : string) :
  activeMemo s = Some active ->
  let s' := title_onChange s newTitle s in
  s' = setMemos (memos s') s
  /\ List.length (memos s') = List.length (memos s)
  /\ map Memo.id (memos s') = map Memo.id (memos s)
  /\ (forall i m, nth_error (memos s) i = Some m ->
      nth_error (memos s') i
      = Some (if (Memo.id m =? Memo.id active)%string
              then Memo.with_title newTitle m else m))
  /\ activeMemo s' = Some (Memo.with_title newTitle active).
Proof.
  intros Ha. cbn zeta. unfold title_onChange. rewrite Ha.
  set (f := fun m => if (Memo.id m =? Memo.id active)%string
                     then Memo.with_title newTitle m else m).
  assert (Hf : forall m, Memo.id (f m) = Memo.id m).
  { intros m. unfold f. now destruct (_ =? _)%string. }
  split; [now destruct s|]. cbn [memos setMemos].
  split; [apply length_map|].
  split; [rewrite map_map; apply map_ext; exact Hf|].
  split.
  - intros i m Hi. rewrite nth_error_map, Hi. reflexivity.
  - unfold activeMemo in *. cbn [memos setMemos activeMemoId].
    assert (Hid : id_is (activeMemoId s) (Memo.id active) = true).
    { apply find_some in Ha. apply Ha. }
    revert Ha. induction (memos s) as [|m l IH]; cbn; [discriminate|].
    rewrite Hf. destruct (id_is (activeMemoId s) (Memo.id m)) eqn:E.
    + intros [= ->]. unfold f. now rewrite String.eqb_refl.
    + exact IH.
Qed.

Lemma rename_active_witness :
  exists s a,
    run initial recorded_twice = Some s
    /\ activeMemo s = Some a
    /\ map Memo.title (memos s) = ["New Recording 2"; "New Recording 1"]
    /\ map Memo.title (memos (title_onChange s "Idea" s)) = ["Idea"; "New Recording 1"]
    /\ map Memo.id (memos (title_onChange s "Idea" s)) = map Memo.id (memos s).
Proof.
  destruct (run initial recorded_twice) as [s|] eqn:E; [|discriminate E].
  destruct (activeMemo s) as [a|] eqn:A;
    [|vm_compute in E; injection E as <-; discriminate A].
  destruct (@rename_active s a "Idea" A) as (_ & _ & H & _).
  exists s, a. split; [reflexivity|]. split; [exact A|].
  split; [vm_compute in E; injection E as <-; reflexivity|].
  split; [vm_compute in E; injection E as <-; reflexivity|exact H].
Defined.

(** ** Search (lines 193-195) *)

Lemma append_empty (s : string) : s ++ "" = s.
Proof. induction s; cbn; congruence. Qed.

(** The empty query shows the whole store, and a query shows every memo
    whose title is the query itself. *)
Lemma search_edge_cases (r : App) :
  filteredMemos (setSearchQuery "" r) = memos r
  /\ (forall m, In m (memos r) -> Memo.title m = searchQuery r ->
      In m (filteredMemos r)).
Proof.
  unfold filteredMemos. split.
  - cbn [searchQuery memos setSearchQuery].
    assert (Hall : forall m, matches_query "" m = true).
    { intros m. unfold matches_query.
      replace (toLowerCase "") with "" by reflexivity.
      now destruct (toLowerCase (Memo.title m)). }
    induction (memos r) as [|m l IH]; cbn [filter]; [reflexivity|].
    now rewrite Hall, IH.
  - intros m Hm Ht. apply filter_In. split; [exact Hm|].
    unfold matches_query. rewrite Ht. apply includes_spec.
    exists "", "". cbn. now rewrite append_empty.
Qed.

Lemma flush_searchQuery s : searchQuery (flush s) = searchQuery s.
Proof. now rewrite flush_frame. Qed.

(** Deleting and searching commute: what the search shows after a delete
    is what it showed before without the memos of the deleted id. *)
Lemma search_after_delete (s : App) (id : string) :
  filteredMemos (flush (deleteMemo s id s))
  = filter (fun m => negb (Memo.id m =? id)%string) (filteredMemos s).
Proof.
  unfold filteredMemos.
  assert (Q : searchQuery (deleteMemo s id s) = searchQuery s).
  { unfold deleteMemo. now destruct (id_is _ _). }
  rewrite flush_searchQuery, Q, flush_memos, deleteMemo_memos.
  induction (memos s) as [|m l IH]; cbn; [reflexivity|].
  destruct (matches_query _ m) eqn:E1, (negb _) eqn:E2; cbn;
    rewrite ?E1, ?E2, IH; reflexivity.
Qed.

(** ** Recording and playback exclude each other (lines 120-181, 210-241) *)

(** While the overlay is shown nothing plays and the user can start
    nothing: the element is paused, [isPlaying] is false, the stop button
    is the only control rendered, and no click on a memo or on the play
    button is possible. *)
Lemma recording_is_quiet (s : App) :
  reachable s -> isRecording s = true ->
  Audio.paused (audioRef s) = true
  /\ isPlaying s = false
  /\ (forall c, rendered s c = true -> c = StopButton)
  /\ (forall i o, step s (Click_memo i o) = None)
  /\ (forall o, step s (Click_playPause o) = None).
Proof.
  intros HR R. destruct (inv_quiet (reachable_Inv HR) R) as [P I].
  split; [exact P|]. split; [exact I|].
  split; [intros c; unfold rendered; rewrite R; destruct c; congruence|].
  unfold step. cbn [handle]. unfold guard, rendered. rewrite R. cbn.
  split; [|reflexivity].
  intros i o. now destruct (nth_error _ _).
Qed.

Lemma recording_is_quiet_witness :
  exists s,
    run initial (playing_first ++ [Click_start])%list = Some s
    /\ isRecording s = true /\ isPlaying s = false
    /\ step s (Click_playPause Audio.Plays) = None.
Proof.
  destruct (run initial (playing_first ++ [Click_start])%list)
    as [s|] eqn:E; [|discriminate E].
  assert (R : isRecording s = true).
  { vm_compute in E. injection E as <-. reflexivity. }
  destruct (@recording_is_quiet s (ex_intro _ _ E) R) as (_ & H & _ & _ & H2).
  exists s. split; [reflexivity|]. split; [exact R|]. split; [exact H|apply H2].
Defined.



(** ** The play state and the player panel (lines 43-44, 196, 308, 372, 385) *)



(** The memo [activeMemo] finds is a memo of the store carrying the active
    id. *)
Lemma activeMemo_spec (s : App) (m : Memo.t) :
  activeMemo s = Some m -> In m (memos s) /\ activeMemoId s = Some (Memo.id m).
Proof.
  intros Hm. unfold activeMemo in Hm. apply find_some in Hm.
  destruct Hm as [Hin Hid]. split; [exact Hin|].
  destruct (activeMemoId s) as [a|]; cbn in Hid; [|discriminate].
  apply String.eqb_eq in Hid. now subst.
Qed.

(** In every reachable state the player panel is there exactly when a memo
    is active, and the memo it shows is a memo of the store carrying the
    active id. *)
Lemma panel_shows_active (s : App) :
  reachable s ->
  (activeMemo s <> None <-> activeMemoId s <> None)
  /\ (isRecording s = false ->
      forall c, In c [TitleInput; Scrubber; SpeedButton; ModeButton; RewindButton;
                      PlayPauseButton; ForwardButton; DeleteButton] ->
      (rendered s c = true <-> activeMemoId s <> None))
  /\ (forall m, activeMemo s = Some m ->
      In m (memos s) /\ activeMemoId s = Some (Memo.id m)).
Proof.
  intros HR. apply reachable_Inv in HR.
  pose proof (@activeMemo_spec s) as F.
  assert (G : activeMemo s <> None <-> activeMemoId s <> None).
  { split.
    - intros Hn. destruct (activeMemo s) as [m|] eqn:E; [|congruence].
      destruct (F m eq_refl) as [_ ->]. discriminate.
    - intros Hn. destruct (activeMemoId s) as [a|] eqn:E; [|congruence].
      destruct (@inv_active s HR a E) as (m & Hin & Hid).
      unfold activeMemo. rewrite E.
      destruct (find _ _) eqn:Fd; [discriminate|].
      eapply find_none in Fd; [|exact Hin]. cbn in Fd.
      rewrite Hid, String.eqb_refl in Fd. discriminate. }
  split; [exact G|]. split; [|exact F].
  intros R c Hc. rewrite <- G. unfold rendered. rewrite R.
  cbn in Hc.
  repeat (destruct Hc as [<-|Hc]; [destruct (activeMemo s); split; congruence|]).
  destruct Hc.
Qed.

Lemma panel_shows_active_witness :
  exists s, run initial recorded_once = Some s
    /\ rendered s DeleteButton = true.
Proof.
  destruct (run initial recorded_once) as [s|] eqn:E; [|discriminate E].
  assert (R : isRecording s = false).
  { vm_compute in E. injection E as <-. reflexivity. }
  assert (A : activeMemoId s <> None).
  { vm_compute in E. injection E as <-. discriminate. }
  destruct (@panel_shows_active s (ex_intro _ _ E)) as (_ & H & _).
  exists s. split; [reflexivity|].
  apply (H R DeleteButton); [cbn; tauto|exact A].
Defined.

(** The delete button, in a reachable state: every memo carrying the active
    id leaves the store (at least one does), the other memos stay in
    order, no memo is active afterwards and the panel is gone. *)
Lemma delete_button (s s' : App) :
  reachable s -> step s Click_delete = Some s' ->
  exists id,
    activeMemoId s = Some id
    /\ memos s' = filter (fun m => negb (Memo.id m =? id)%string) (memos s)
    /\ (List.length (memos s') < List.length (memos s))%nat
    /\ activeMemoId s' = None
    /\ activeMemo s' = None
    /\ Audio.paused (audioRef s') = true.
Proof.
  intros HR H. unfold step in H. cbn [handle] in H.
  destruct (activeMemo s) as [a|] eqn:A; [|discriminate].
  unfold guard in H. destruct (rendered s DeleteButton); [|discriminate].
  cbn [option_map] in H. injection H as <-.
  destruct (@activeMemo_spec s a A) as [Hin Hid]. exists (Memo.id a).
  split; [exact Hid|]. rewrite flush_memos, deleteMemo_memos.
  split; [reflexivity|]. split.
  - clear - Hin. induction (memos s) as [|m l IH]; [destruct Hin|].
    cbn. destruct Hin as [->|Hin].
    + rewrite String.eqb_refl. cbn.
      pose proof (filter_length_le (fun m => negb (Memo.id m =? Memo.id a)%string) l).
      lia.
    + specialize (IH Hin). destruct (negb _); cbn; lia.
  - assert (N : forall l, find (fun m : Memo.t => id_is None (Memo.id m)) l = None)
      by (induction l; cbn; auto).
    rewrite flush_frame. unfold activeMemo.
    cbn [activeMemoId memos audioRef setPlaybackTime setIsPlaying set_audioRef
         Audio.paused Audio.clear_pending].
    unfold deleteMemo. rewrite Hid. cbn [id_is]. rewrite String.eqb_refl.
    cbn. repeat split. apply N.
Qed.

Lemma delete_button_witness :
  exists s s',
    run initial recorded_twice = Some s
    /\ step s Click_delete = Some s'
    /\ map Memo.id (memos s') = ["5000"] /\ activeMemoId s' = None.
Proof.
  destruct (run initial recorded_twice) as [s|] eqn:E; [|discriminate E].
  destruct (step s Click_delete) as [s'|] eqn:F;
    [|vm_compute in E; injection E as <-; discriminate F].
  destruct (@delete_button s s' (ex_intro _ _ E) F) as (id & Ha & Hm & _ & Hn & _).
  exists s, s'. split; [reflexivity|]. split; [exact F|]. split; [|exact Hn].
  rewrite Hm. vm_compute in E. injection E as <-.
  cbn in Ha. injection Ha as <-. reflexivity.
Defined.

(** ** The waveform (src/components/Waveform.tsx) *)

(** With [Math.random()] in [0, 1), the waveform has 60 bars, each between
    10 and 99 percent high with a delay in [0, 1); the bars pulse exactly
    when a memo plays or a recording runs. *)
Lemma waveform_bars (isPlaying isRecording : bool) (random : nat -> Q) :
  (forall k, 0 <= random k /\ random k < 1) ->
  List.length (Waveform.Waveform isPlaying isRecording random) = 60%nat
  /\ forall b, In b (Waveform.Waveform isPlaying isRecording random) ->
      (10 <= Waveform.height b <= 99)%Z
      /\ 0 <= Waveform.animationDelay b /\ Waveform.animationDelay b < 1
      /\ (Waveform.animationClass b = "animate-pulse"
          <-> isPlaying || isRecording = true)
      /\ Waveform.opacity b = (if isRecording then 1 else 3 # 10).
Proof.
  intros Hr. unfold Waveform.Waveform. split; [now rewrite length_map|].
  intros b Hb. apply in_map_iff in Hb. destruct Hb as (i & <- & _).
  unfold Waveform.bar.
  cbn [Waveform.height Waveform.animationDelay Waveform.animationClass Waveform.opacity].
  destruct (Hr (2 * i)%nat) as [L0 L1]. destruct (Hr (2 * i + 1)%nat) as [D0 D1].
  repeat split.
  - apply Z.le_max_l.
  - apply Z.max_lub; [lia|].
    assert (Hlt : (Qfloor (random (2 * i)%nat * 100) < 100)%Z).
    { apply Z.nle_gt. intros Hge.
      rewrite Zle_Qle in Hge.
      pose proof (Qfloor_le (random (2 * i)%nat * 100)) as Hf.
      assert (Hx : random (2 * i)%nat * 100 < 100).
      { setoid_replace 100 with (1 * 100) at 2 by reflexivity.
        apply Qmult_lt_compat_r; [reflexivity|exact L1]. }
      apply (Qlt_irrefl 100).
      eapply Qle_lt_trans; [exact Hge|]. eapply Qle_lt_trans; [exact Hf|exact Hx]. }
    lia.
  - rewrite Qmult_1_r. exact D0.
  - rewrite Qmult_1_r. exact D1.
  - destruct (isPlaying || isRecording); [reflexivity|discriminate].
  - intros ->. reflexivity.
Qed.

Lemma waveform_bars_witness :
  List.length (Waveform.Waveform true false (fun _ => 1 # 2)) = 60%nat.
Proof.
  apply (@waveform_bars true false (fun _ => 1 # 2)).
  intros k. split; [discriminate|reflexivity].
Defined.

(** ** The elapsed time and the play button (lines 163-166, 372) *)

(** A tick of the recording timer shows the time since the start of the
    recording, read off the clock (not added up tick by tick), and changes
    nothing else; a timer that is not running does not tick. *)
Lemma timer_shows_elapsed (s : App) (timer : nat) (startTime now : Z) :
  reachable s -> intervals s = [(timer, startTime)] ->
  step s (Timer_fires timer now) = Some (setRecordingTime (inject_Z (now - startTime) / 1000) s)
  /\ ((startTime <= now)%Z -> 0 <= inject_Z (now - startTime) / 1000)
  /\ (forall other, other <> timer -> step s (Timer_fires other now) = None).
Proof.
  intros HR Hi. pose proof (inv_pending (reachable_Inv HR)) as Hp.
  unfold step. cbn [handle]. rewrite Hi. cbn [find fst].
  split; [|split].
  - rewrite Nat.eqb_refl. cbn [option_map]. f_equal.
    apply flush_idle. exact Hp.
  - intros Hle. apply Qle_shift_div_l; [reflexivity|].
    rewrite Qmult_0_l. rewrite <- (Zle_Qle 0). lia.
  - intros other Hne. apply Nat.eqb_neq in Hne.
    rewrite Nat.eqb_sym in Hne. now rewrite Hne.
Qed.

Lemma timer_shows_elapsed_witness :
  exists s s',
    run initial [Click_start; GetUserMedia_settles 0 true 1000; Timer_fires 2 1100]
    = Some s
    /\ step s (Timer_fires 2 4200) = Some s'
    /\ recordingTime s' == 32 # 10.
Proof.
  destruct (run initial [Click_start; GetUserMedia_settles 0 true 1000; Timer_fires 2 1100])
    as [s|] eqn:E; [|discriminate E].
  assert (I : intervals s = [(2%nat, 1000%Z)]).
  { vm_compute in E. injection E as <-. reflexivity. }
  destruct (@timer_shows_elapsed s 2 1000 4200 (ex_intro _ _ E) I) as (H & _).
  exists s. eexists. split; [reflexivity|]. split; [exact H|]. reflexivity.
Defined.


